(** * pat-app: the Attester's quota state machine and the Origin's challenge
      lifecycle

    A shallow embedding of [commands/attester.go] and [commands/origin.go].
    Handlers become functions from the service state, the request and the
    answers of the outside world (the Issuer, the random source, the resource
    server) to the written response, the new state and the requests sent out.
    The cryptographic and wire-format operations of [pat-go] and of the Go
    standard library are fields of an environment record; what the handlers
    themselves compute (dispatch, bookkeeping, status codes) is written out. *)

From Stdlib Require Import ZArith NArith Lia Bool List Ascii String Strings.Byte.
From stdpp Require Import base option list gmap strings.

Import ListNotations.
Local Open Scope string_scope.
Local Open Scope Z_scope.

(** ** Go values *)

Module Go.

(** A call that returns [(value, error)]. *)
Inductive result (A : Type) : Type :=
| Ok (a : A)
| Err (msg : string).
Arguments Ok {A} a.
Arguments Err {A} msg.

(** [int] on a 64-bit platform: additions wrap around. *)
Definition int_min : Z := - 2 ^ 63.
Definition int_max : Z := 2 ^ 63 - 1.
Definition int_wrap (z : Z) : Z := (z + 2 ^ 63) mod 2 ^ 64 - 2 ^ 63.
Definition int_add (a b : Z) : Z := int_wrap (a + b).

Definition byte_to_Z (b : byte) : Z := Z.of_N (Byte.to_N b).
Definition byte_of_Z (z : Z) : byte :=
  match Byte.of_N (Z.to_N (z mod 256)) with
  | Some b => b
  | None => x00
  end.

Definition bytes_of_string (s : string) : list byte := list_byte_of_string s.

(** [binary.BigEndian.Uint16]: indexing [b[1]] panics on a slice shorter than
    two bytes ([None]). *)
Definition BigEndian_Uint16 (b : list byte) : option Z :=
  match b with
  | b0 :: b1 :: _ => Some (Z.lor (byte_to_Z b1) (Z.shiftl (byte_to_Z b0) 8))
  | _ => None
  end.

(** [hex.EncodeToString]. *)
Definition hextable : string := "0123456789abcdef".
Definition hex_digit (n : Z) : ascii :=
  match String.get (Z.to_nat n) hextable with
  | Some c => c
  | None => "0"%char
  end.
Fixpoint hex_EncodeToString (src : list byte) : string :=
  match src with
  | [] => EmptyString
  | v :: rest =>
      String (hex_digit (Z.shiftr (byte_to_Z v) 4))
        (String (hex_digit (Z.land (byte_to_Z v) 15)) (hex_EncodeToString rest))
  end.

(** [new(big.Int).SetBytes]: a big-endian unsigned integer. *)
Definition big_SetBytes (buf : list byte) : Z :=
  fold_left (fun acc b => acc * 256 + byte_to_Z b) buf 0.

(** [strconv.Atoi]: an optional sign, then one or more decimal digits, the
    value in the range of [int]; anything else is an error. *)
Definition digit_of (c : ascii) : option Z :=
  let n := Z.of_nat (nat_of_ascii c) in
  if (48 <=? n) && (n <=? 57) then Some (n - 48) else None.
Fixpoint parse_digits (acc : Z) (s : string) : option Z :=
  match s with
  | EmptyString => Some acc
  | String c rest =>
      match digit_of c with
      | Some d => parse_digits (acc * 10 + d) rest
      | None => None
      end
  end.
Definition parse_unsigned (s : string) : option Z :=
  match s with
  | EmptyString => None
  | _ => parse_digits 0 s
  end.
Definition strconv_Atoi (s : string) : option Z :=
  let signed :=
    match s with
    | String "-" rest => (fun z => - z) <$> parse_unsigned rest
    | String "+" rest => parse_unsigned rest
    | _ => parse_unsigned s
    end in
  match signed with
  | Some z => if (int_min <=? z) && (z <=? int_max) then Some z else None
  | None => None
  end.

(** [strings.HasPrefix]. *)
Fixpoint strings_HasPrefix (s prefix : string) : bool :=
  match prefix, s with
  | EmptyString, _ => true
  | String p prefix', String c s' =>
      if Ascii.eqb p c then strings_HasPrefix s' prefix' else false
  | String _ _, EmptyString => false
  end.

(** [strings.SplitAfter s sep] for a non-empty [sep]: cut after every
    occurrence of [sep], scanning from the left; [cur] is the piece read so far. *)
Fixpoint drop_string (n : nat) (s : string) : string :=
  match n, s with
  | O, _ => s
  | S n', String _ s' => drop_string n' s'
  | S _, EmptyString => EmptyString
  end.
Fixpoint splitAfter_go (fuel : nat) (sep : string) (cur : string) (s : string)
  : list string :=
  match fuel with
  | O => [(cur ++ s)%string]
  | S fuel' =>
      if strings_HasPrefix s sep then
        (cur ++ sep)%string
          :: splitAfter_go fuel' sep EmptyString (drop_string (String.length sep) s)
      else
        match s with
        | EmptyString => [cur]
        | String c s' => splitAfter_go fuel' sep (cur ++ String c EmptyString)%string s'
        end
  end.
Definition strings_SplitAfter (s sep : string) : list string :=
  splitAfter_go (S (String.length s)) sep EmptyString s.

End Go.

(** ** net/http *)

Module HTTP.
Import Go.

(** [textproto.CanonicalMIMEHeaderKey]: a key of token characters gets an
    upper-case letter first and after every hyphen and lower-case letters
    elsewhere; any other key is left as it is. *)
Definition code (c : ascii) : Z := Z.of_nat (nat_of_ascii c).
Definition is_lower (c : ascii) : bool := (97 <=? code c) && (code c <=? 122).
Definition is_upper (c : ascii) : bool := (65 <=? code c) && (code c <=? 90).
Definition is_digit (c : ascii) : bool := (48 <=? code c) && (code c <=? 57).
Definition to_upper (c : ascii) : ascii :=
  if is_lower c then ascii_of_nat (nat_of_ascii c - 32) else c.
Definition to_lower (c : ascii) : ascii :=
  if is_upper c then ascii_of_nat (nat_of_ascii c + 32) else c.
Definition token_punct : string := "!#$%&'*+-.^_`|~".
Fixpoint mem_ascii (c : ascii) (s : string) : bool :=
  match s with
  | EmptyString => false
  | String d s' => Ascii.eqb c d || mem_ascii c s'
  end.
Definition validHeaderFieldByte (c : ascii) : bool :=
  is_lower c || is_upper c || is_digit c || mem_ascii c token_punct.
Fixpoint all_ascii (p : ascii -> bool) (s : string) : bool :=
  match s with
  | EmptyString => true
  | String c s' => p c && all_ascii p s'
  end.
Fixpoint canon_go (upper : bool) (s : string) : string :=
  match s with
  | EmptyString => EmptyString
  | String c s' =>
      let c' := if upper then to_upper c else to_lower c in
      String c' (canon_go (Ascii.eqb c' "-") s')
  end.
Definition CanonicalMIMEHeaderKey (s : string) : string :=
  if all_ascii validHeaderFieldByte s then canon_go true s else s.

(** [http.Header] and [url.Values] are maps from a key to its values. *)
Definition first_value (vs : option (list string)) : string :=
  match vs with
  | Some (v :: _) => v
  | _ => EmptyString
  end.
Definition Header_Get (h : gmap string (list string)) (key : string) : string :=
  first_value (h !! CanonicalMIMEHeaderKey key).
Definition Header_Set (h : gmap string (list string)) (key value : string)
  : gmap string (list string) :=
  <[CanonicalMIMEHeaderKey key := [value]]> h.
Definition Values_Get (v : gmap string (list string)) (key : string) : string :=
  first_value (v !! key).

(** What [ioutil.ReadAll] makes of a body. *)
Definition Body : Type := result (list byte).

(** An inbound request, as far as the handlers look at it. *)
Record Request := {
  Method : string;
  Header : gmap string (list string);
  Query : gmap string (list string);       (* req.URL.Query() *)
  ReqBody : Body;
}.

(** A request built by [http.NewRequest] and sent with [client.Do]. *)
Record ClientRequest := {
  cr_method : string;
  cr_url : string;
  cr_header : gmap string (list string);
  cr_body : list byte;
}.

(** What [client.Do] returns. *)
Record Response := {
  resp_header : gmap string (list string);
  resp_body : Body;
}.

(** The [http.ResponseWriter]: headers, the status line once written, and the
    body written so far. *)
Record ResponseWriter := {
  w_header : gmap string (list string);
  w_status : option Z;
  w_body : list byte;
}.
Definition new_writer : ResponseWriter :=
  {| w_header := ∅; w_status := None; w_body := [] |}.
Definition WriteHeader (w : ResponseWriter) (code : Z) : ResponseWriter :=
  match w_status w with
  | Some _ => w
  | None => {| w_header := w_header w; w_status := Some code; w_body := w_body w |}
  end.
Definition Write (w : ResponseWriter) (b : list byte) : ResponseWriter :=
  let w' := WriteHeader w 200 in
  {| w_header := w_header w'; w_status := w_status w'; w_body := w_body w' ++ b |}.
Definition SetHeader (w : ResponseWriter) (key value : string) : ResponseWriter :=
  {| w_header := Header_Set (w_header w) key value;
     w_status := w_status w; w_body := w_body w |}.

(** [http.Error]. *)
Definition Error (w : ResponseWriter) (error : string) (code : Z) : ResponseWriter :=
  let w1 := SetHeader w "Content-Type" "text/plain; charset=utf-8" in
  let w2 := SetHeader w1 "X-Content-Type-Options" "nosniff" in
  let w3 := WriteHeader w2 code in
  Write w3 (bytes_of_string (error ++ String (ascii_of_nat 10) EmptyString)%string).

(** The status the client sees: 200 when the handler returned without writing
    a status line. *)
Definition status_of (w : ResponseWriter) : Z := default 200 (w_status w).

Definition MethodPost : string := "POST".
Definition MethodGet : string := "GET".
Definition StatusBadRequest : Z := 400.
Definition StatusUnauthorized : Z := 401.
Definition StatusTooManyRequests : Z := 429.
Definition StatusInternalServerError : Z := 500.
Definition StatusText (code : Z) : string :=
  if code =? 400 then "Bad Request"
  else if code =? 401 then "Unauthorized"
  else if code =? 429 then "Too Many Requests"
  else if code =? 500 then "Internal Server Error"
  else EmptyString.

End HTTP.

(** ** Control flow of a handler

    A handler runs a chain of checks; each either goes on with a value, ends
    the request with what it wrote to the [ResponseWriter], or panics (the
    server then drops the connection without a response). *)

Inductive Flow (A : Type) : Type :=
| Next (a : A)
| Reply (w : HTTP.ResponseWriter)
| Panic.
Arguments Next {A} a.
Arguments Reply {A} w.
Arguments Panic {A}.

#[global] Instance flow_ret : MRet Flow := fun A a => Next a.
#[global] Instance flow_bind : MBind Flow := fun A B k m =>
  match m with
  | Next a => k a
  | Reply w => Reply w
  | Panic => Panic
  end.

(** [if cond { http.Error(w, msg, code); return }]. *)
Definition reject_if (cond : bool) (msg : string) (code : Z) : Flow unit :=
  if cond then Reply (HTTP.Error HTTP.new_writer msg code) else Next tt.

(** [v, err := f(...); if err != nil { http.Error(w, msg err, code); return }]. *)
Definition try {A : Type} (r : Go.result A) (msg : string -> string) (code : Z)
  : Flow A :=
  match r with
  | Go.Ok a => Next a
  | Go.Err e => Reply (HTTP.Error HTTP.new_writer (msg e) code)
  end.

Definition or_panic {A : Type} (o : option A) : Flow A :=
  match o with
  | Some a => Next a
  | None => Panic
  end.

(** A flow that does not panic and rejects with one status only. *)
Definition rejects_with {A : Type} (code : Z) (f : Flow A) : Prop :=
  match f with
  | Next _ => True
  | Reply w => HTTP.status_of w = code
  | Panic => False
  end.

Definition string_eqb (a b : string) : bool := bool_decide (a = b).

(** ** The Attester ([commands/attester.go]) *)

Module Attester.
Import Go HTTP.

(** pat-go's token types. *)
Definition BasicPublicTokenType : Z := 2.
Definition RateLimitedTokenType : Z := 3.

Definition attesterTokenRequestURI : string := "/token-request".
Definition headerTokenOrigin : string := "sec-token-origin".
Definition headerClientKey : string := "sec-token-client".
Definition headerRequestBlind : string := "sec-token-request-blind".
Definition headerClientID : string := "sec-client-id".
Definition headerTokenLimit : string := "sec-token-limit".
Definition rateLimitedTokenType : Z := 3.

(** pat-go's [RateLimitedTokenRequest], as [Unmarshal] fills it. *)
Record RateLimitedTokenRequest := {
  RequestKey : list byte;
  NameKeyID : list byte;
  EncryptedTokenRequest : list byte;
  Signature : list byte;
}.

(** What the handler takes from the rest of the package, from pat-go and from
    the Go libraries. *)
Record Env := {
  tokenRequestMediaType : string;
  tokenResponseMediaType : string;
  tokenRequestURI : string;
  composeURL : string -> string -> result string;
  url_Parse : string -> result unit;               (* inside http.NewRequest *)
  unmarshalStructuredBinary : string -> result (list byte);
  Unmarshal : list byte -> option RateLimitedTokenRequest;
  elliptic_UnmarshalCompressed : list byte -> option (Z * Z);
  sha512_Sum384 : list byte -> list byte;
  ecdsa_Verify : option (Z * Z) -> list byte -> Z -> Z -> bool;
  FinalizeIndex : list byte -> list byte -> list byte -> result (list byte);
}.

Record ClientState := {
  originIndices : gmap string string;  (* anonymous origin ID to stable index *)
  originCounts : gmap string Z;        (* anonymous origin ID to per-origin count *)
}.

(** Reading a [map[string]int]: a missing key reads as 0. *)
Definition count_of (m : gmap string Z) (k : string) : Z := default 0 (m !! k).

(** [TestAttester.clientState]; the [client] field is the Issuer, passed to the
    handler as the function that answers the forwarded request. *)
Record TestAttester := {
  clientState : gmap string ClientState;
}.

Definition Issuer : Type := ClientRequest -> result Response.

Definition parseStructuredBinaryHeader (env : Env) (req : Request) (header : string)
  : result (list byte) :=
  if string_eqb (Header_Get (Header req) header) "" then
    Err ("Header " ++ header ++ " missing")
  else unmarshalStructuredBinary env (Header_Get (Header req) header).

Definition http_NewRequest (env : Env) (method url : string) (body : list byte)
  : result ClientRequest :=
  match url_Parse env url with
  | Err e => Err e
  | Ok _ => Ok {| cr_method := method; cr_url := url; cr_header := ∅; cr_body := body |}
  end.

(** Lines 61-105: the format checks and the request to forward. *)
Definition prepare (env : Env) (req : Request) : Flow (list byte * ClientRequest) :=
  _ ← reject_if (negb (string_eqb (Method req) MethodPost)) "Invalid method" 400;
  _ ← reject_if (negb (string_eqb (Header_Get (Header req) "Content-Type")
                          (tokenRequestMediaType env)))
         "Invalid Content-Type" 400;
  let targetName := Values_Get (Query req) "issuer" in
  _ ← reject_if (string_eqb targetName "")
         (StatusText StatusBadRequest) StatusBadRequest;
  requestBody ← try (ReqBody req) id 400;
  targetURI ← try (composeURL env targetName (tokenRequestURI env)) id 400;
  tokenReq ← try (http_NewRequest env MethodPost targetURI requestBody) id 400;
  Next (requestBody,
        {| cr_method := cr_method tokenReq; cr_url := cr_url tokenReq;
           cr_header := Header_Set (cr_header tokenReq) "Content-Type"
                          (tokenRequestMediaType env);
           cr_body := cr_body tokenReq |}).

(** Lines 160-167: the signed message; [BytesOrPanic] panics when the
    length prefix does not fit 16 bits. *)
Definition uint16_bytes (v : Z) : list byte :=
  [byte_of_Z (Z.shiftr v 8); byte_of_Z v].
Definition signed_message (tokenRequest : RateLimitedTokenRequest)
  : option (list byte) :=
  let enc := EncryptedTokenRequest tokenRequest in
  if Z.of_nat (length enc) <=? 65535 then
    Some (uint16_bytes RateLimitedTokenType ++ RequestKey tokenRequest
            ++ NameKeyID tokenRequest
            ++ uint16_bytes (Z.of_nat (length enc)) ++ enc)%list
  else None.

(** [Signature[:scalarLen]] and [Signature[scalarLen:]]: out of range on a
    signature shorter than [scalarLen]. *)
Definition scalarLen : nat := Z.to_nat ((384 + 7) / 8).
Definition split_signature (sig : list byte) : option (Z * Z) :=
  if (length sig <? scalarLen)%nat then None
  else Some (big_SetBytes (take scalarLen sig), big_SetBytes (drop scalarLen sig)).

Definition signature_valid (env : Env) (tokenRequest : RateLimitedTokenRequest)
  (r s : Z) (message : list byte) : bool :=
  ecdsa_Verify env (elliptic_UnmarshalCompressed env (RequestKey tokenRequest))
    (sha512_Sum384 env message) r s.

(** Lines 109-178: decoding, headers and the request signature. The second
    [Unmarshal] cannot fail where the first did not; its error branch calls
    [err.Error()] on a nil error. *)
Definition verify_request (env : Env) (req : Request) (requestBody : list byte)
  : Flow (list byte * list byte * list byte * string) :=
  _ ← reject_if (negb (bool_decide (is_Some (Unmarshal env requestBody))))
         "Failed parsing client TokenRequest" 400;
  anonOrigin ← try (parseStructuredBinaryHeader env req headerTokenOrigin) id 400;
  clientKey ← try (parseStructuredBinaryHeader env req headerClientKey) id 400;
  requestBlind ← try (parseStructuredBinaryHeader env req headerRequestBlind) id 400;
  let clientID :=
    if string_eqb (Header_Get (Header req) headerClientID) "" then "default"
    else Header_Get (Header req) headerClientID in
  tokenRequest ← or_panic (Unmarshal env requestBody);
  '(r, s) ← or_panic (split_signature (Signature tokenRequest));
  message ← or_panic (signed_message tokenRequest);
  _ ← reject_if (negb (signature_valid env tokenRequest r s message))
         "Request signature failed to verify" 400;
  Next (anonOrigin, clientKey, requestBlind, clientID).

(** Lines 187-229: what the Issuer answered, and the index. *)
Definition read_response (env : Env) (answer : result Response)
  (clientKey requestBlind : list byte) : Flow (Z * list byte * string) :=
  resp ← try answer id 400;
  _ ← reject_if (string_eqb (Header_Get (resp_header resp) headerTokenLimit) "")
         ("Response missing " ++ headerTokenLimit ++ " header") 400;
  tokenLimit ← match strconv_Atoi (Header_Get (resp_header resp) headerTokenLimit) with
                | Some n => Next n
                | None => Reply (Error new_writer
                                   ("Invalid " ++ headerTokenLimit ++ " header") 400)
                end;
  blindSignature ← try (resp_body resp) id 400;
  blindedRequestKey ←
    try (unmarshalStructuredBinary env (Header_Get (resp_header resp) headerTokenOrigin))
      (fun _ => "Invalid " ++ headerTokenOrigin ++ " header") 400;
  index ← try (FinalizeIndex env clientKey requestBlind blindedRequestKey)
             (fun _ => "Index computation failed") 400;
  Next (tokenLimit, blindSignature, hex_EncodeToString index).

(** Lines 231-275: the per-client bookkeeping. [err] is the variable [err] of
    the handler as it stands at line 258, where it was last assigned by
    [pat.FinalizeIndex] and found nil. The maps of a [ClientState] are
    references, so writing through the copy [state] writes the stored state. *)
Definition update_state (st : gmap string ClientState)
  (clientID anonOriginEnc indexEnc : string) (tokenLimit : Z) (err : option string)
  : Flow unit * gmap string ClientState :=
  match st !! clientID with
  | None =>
      (* No client state for this client, so initialize it *)
      (Next tt,
       <[clientID := {| originIndices := {[anonOriginEnc := indexEnc]};
                        originCounts := {[anonOriginEnc := 1]} |}]> st)
  | Some state =>
      match originIndices state !! anonOriginEnc with
      | None =>
          (* This is a newly visited origin, so initialize it as such *)
          (Next tt,
           <[clientID := {| originIndices := <[anonOriginEnc := indexEnc]> (originIndices state);
                            originCounts := <[anonOriginEnc := 1]> (originCounts state) |}]> st)
      | Some oldIndexEnc =>
          (* Check for index stability *)
          if negb (string_eqb oldIndexEnc indexEnc) then
            match err with
            | Some _ => (Reply (Error new_writer "Invalid mapping, aborting" 400), st)
            | None => (Next tt, st)
            end
          else
            let counts :=
              <[indexEnc := int_add (count_of (originCounts state) indexEnc) 1]>
                (originCounts state) in
            let st' := <[clientID := {| originIndices := originIndices state;
                                         originCounts := counts |}]> st in
            if tokenLimit <=? count_of counts indexEnc then
              (Reply (Error new_writer "Limit exceeded" StatusTooManyRequests), st')
            else (Next tt, st')
      end
  end.

(** What one call of the handler did: the response written ([None] when the
    handler panicked), the Attester afterwards and the requests sent to the
    Issuer. *)
Record Handled := {
  response : option ResponseWriter;
  after : TestAttester;
  forwarded : list ClientRequest;
}.

Definition finish (f : Flow ResponseWriter) (a : TestAttester)
  (sent : list ClientRequest) : Handled :=
  {| response := match f with
                 | Next w | Reply w => Some w
                 | Panic => None
                 end;
     after := a; forwarded := sent |}.

(** Lines 277-278 and 300-301. *)
Definition write_token (env : Env) (blindSignature : list byte) : ResponseWriter :=
  Write (SetHeader new_writer "content-type" (tokenResponseMediaType env)) blindSignature.

Definition handleAttestationRequest (env : Env) (a : TestAttester) (issuer : Issuer)
  (req : Request) : Handled :=
  match prepare env req with
  | Reply w => finish (Reply w) a []
  | Panic => finish Panic a []
  | Next (requestBody, tokenReq) =>
      match BigEndian_Uint16 requestBody with
      | None => finish Panic a []
      | Some tokenType =>
          if tokenType =? RateLimitedTokenType then
            match verify_request env req requestBody with
            | Reply w => finish (Reply w) a []
            | Panic => finish Panic a []
            | Next (anonOrigin, clientKey, requestBlind, clientID) =>
                match read_response env (issuer tokenReq) clientKey requestBlind with
                | Reply w => finish (Reply w) a [tokenReq]
                | Panic => finish Panic a [tokenReq]
                | Next (tokenLimit, blindSignature, indexEnc) =>
                    let anonOriginEnc := hex_EncodeToString anonOrigin in
                    let '(verdict, st') :=
                      update_state (clientState a) clientID anonOriginEnc indexEnc
                        tokenLimit None in
                    finish (_ ← verdict; Next (write_token env blindSignature))
                      {| clientState := st' |} [tokenReq]
                end
            end
          else if tokenType =? BasicPublicTokenType then
            finish (resp ← try (issuer tokenReq) id 400;
                    blindSignature ← try (resp_body resp) id 400;
                    Next (write_token env blindSignature))
              a [tokenReq]
          else finish (Next new_writer) a []
      end
  end.

(** Requests handled one after another, each with the Issuer as it answers
    at that time. *)
Fixpoint serve (env : Env) (a : TestAttester) (reqs : list (Issuer * Request))
  : list Handled :=
  match reqs with
  | [] => []
  | (issuer, req) :: rest =>
      let h := handleAttestationRequest env a issuer req in
      h :: serve env (after h) rest
  end.

Definition final_state (a : TestAttester) (hs : list Handled) : TestAttester :=
  match last hs with
  | Some h => after h
  | None => a
  end.

Definition startAttester : TestAttester := {| clientState := ∅ |}.

(** *** Notions used in the statements *)

(** A rate-limited request that passed every check before the bookkeeping:
    the request forwarded, the client, the encoded anonymous origin, the
    encoded index, the limit the Issuer advertised and the bytes it signed. *)
Definition rate_limited_inputs (env : Env) (issuer : Issuer) (req : Request)
  : option (ClientRequest * string * string * string * Z * list byte) :=
  match prepare env req with
  | Next (requestBody, tokenReq) =>
      match BigEndian_Uint16 requestBody with
      | Some tokenType =>
          if tokenType =? RateLimitedTokenType then
            match verify_request env req requestBody with
            | Next (anonOrigin, clientKey, requestBlind, clientID) =>
                match read_response env (issuer tokenReq) clientKey requestBlind with
                | Next (tokenLimit, blindSignature, indexEnc) =>
                    Some (tokenReq, clientID, hex_EncodeToString anonOrigin, indexEnc,
                          tokenLimit, blindSignature)
                | _ => None
                end
            | _ => None
            end
          else None
      | None => None
      end
  | _ => None
  end.



(** The pair is recorded with [idx], and [n] is counted under [idx]. *)
Definition tracked (a : TestAttester) (c anon idx : string) (n : Z) : Prop :=
  exists cs, clientState a !! c = Some cs /\ originIndices cs !! anon = Some idx
             /\ count_of (originCounts cs) idx = n.

(** The body decodes, and the signature in it does not verify. *)
Definition signature_fails (env : Env) (body : list byte) : Prop :=
  exists tokenRequest r s message,
    Unmarshal env body = Some tokenRequest
    /\ split_signature (Signature tokenRequest) = Some (r, s)
    /\ signed_message tokenRequest = Some message
    /\ signature_valid env tokenRequest r s message = false.

(** A Basic request that passed the format checks. *)
Definition is_basic (env : Env) (ir : Issuer * Request) : Prop :=
  exists body tokenReq,
    prepare env ir.2 = Next (body, tokenReq)
    /\ BigEndian_Uint16 body = Some BasicPublicTokenType.

End Attester.

(** ** The Origin ([commands/origin.go]) *)

Module Origin.
Import Go HTTP.

Definition BasicPublicTokenType : Z := 2.
Definition RateLimitedTokenType : Z := 3.

Definition challengeNonceLength : nat := 32.

Definition authorizationAttributeChallenge : string := "challenge".
Definition authorizationAttributeMaxAge : string := "max-age".
Definition authorizationAttributeTokenKey : string := "token-key".
Definition authorizationAttributeNameKey : string := "issuer-encap-key".
Definition headerTokenAttributeNoninteractive : string := "Sec-Token-Attribute-Non-Interactive".
Definition headerTokenAttributeCrossOrigin : string := "Sec-Token-Attribute-Cross-Origin".
Definition headerTokenAttributeChallengeCount : string := "Sec-Token-Attribute-Count".
Definition headerTokenType : string := "Sec-CH-Token-Type".
Definition privateTokenType : string := "PrivateToken".
Definition testResource : string :=
  "https://tfpauly.github.io/privacy-proxy/draft-privacypass-rate-limit-tokens.html".

(** pat-go's [TokenChallenge] and [Token]. *)
Record TokenChallenge := {
  TokenType : Z;
  IssuerName : string;
  OriginInfo : list string;
  RedemptionNonce : list byte;
}.

Record Token := {
  Token_TokenType : Z;
  Nonce : list byte;
  Context : list byte;
  KeyID : list byte;
  Authenticator : list byte;
}.

Record rsa_PublicKey := { rsa_N : Z; rsa_E : Z }.

Record Env := {
  base64_EncodeToString : list byte -> string;
  base64_DecodeString : string -> result (list byte);
  Marshal : TokenChallenge -> list byte;
  EncapKey_Marshal : list byte -> list byte;
  sha256_Sum256 : list byte -> list byte;
  sha512_Sum384 : list byte -> list byte;
  UnmarshalToken : list byte -> result Token;
  AuthenticatorInput : Token -> list byte;
  (* [None] is a nil error: the authenticator verifies *)
  rsa_VerifyPSS : rsa_PublicKey -> list byte -> list byte -> option string;
  url_Parse : string -> result unit;
}.

(** The [Origin] struct. Its methods have value receivers: each call works on
    a copy of the struct that shares the [challenges] map. [challengeLock] has
    no part in a run of one handler at a time and is left out here. *)
Record Origin := {
  issuerName : string;
  originName : string;
  additionalOriginInfo : list string;
  rateLimitedTokenKeyEnc : list byte;
  rateLimitedTokenKey : option rsa_PublicKey;
  basicTokenKeyEnc : list byte;
  basicValidationKey : option rsa_PublicKey;
  issuerEncapKey : list byte;
  challenges : gmap string (list TokenChallenge);
}.

Definition with_challenges (o : Origin) (m : gmap string (list TokenChallenge)) : Origin :=
  {| issuerName := issuerName o; originName := originName o;
     additionalOriginInfo := additionalOriginInfo o;
     rateLimitedTokenKeyEnc := rateLimitedTokenKeyEnc o;
     rateLimitedTokenKey := rateLimitedTokenKey o;
     basicTokenKeyEnc := basicTokenKeyEnc o;
     basicValidationKey := basicValidationKey o;
     issuerEncapKey := issuerEncapKey o;
     challenges := m |}.

(** [nonce := make([]byte, n); rand.Reader.Read(nonce)], where the reader
    delivers [rnd]: the bytes it did not fill stay zero. *)
Definition rand_Read (n : nat) (rnd : list byte) : list byte :=
  (take n rnd ++ replicate (n - length (take n rnd)) x00)%list.

(** [req.Header.Get(header) != "" || req.URL.Query().Get(param) != ""]. *)
Definition signals (req : Request) (header param : string) : bool :=
  negb (string_eqb (Header_Get (Header req) header) "")
  || negb (string_eqb (Values_Get (Query req) param) "").

(** Lines 80-97: the token type asked for. *)
Definition basic_requested (req : Request) : bool :=
  if signals req headerTokenType "type" then
    match strconv_Atoi (Header_Get (Header req) headerTokenType) with
    | Some tokenTypeValue => tokenTypeValue =? BasicPublicTokenType
    | None =>
        match strconv_Atoi (Values_Get (Query req) "type") with
        | Some tokenTypeValue => tokenTypeValue =? BasicPublicTokenType
        | None => false
        end
    end
  else false.

(** Lines 63-104: the challenge and the key advertised with it. *)
Definition new_challenge (env : Env) (o : Origin) (req : Request) (rnd : list byte)
  : TokenChallenge * string :=
  let nonce := rand_Read challengeNonceLength rnd in
  let originInfo := fold_left (fun acc originName => acc ++ [originName])%list
                      (additionalOriginInfo o) [originName o] in
  let nonce :=
    if signals req headerTokenAttributeNoninteractive "noninteractive" then [] else nonce in
  let originInfo :=
    if signals req headerTokenAttributeCrossOrigin "crossorigin" then [] else originInfo in
  let basic := basic_requested req in
  let tokenKey :=
    base64_EncodeToString env
      (if basic then basicTokenKeyEnc o else rateLimitedTokenKeyEnc o) in
  let tokenType := if basic then BasicPublicTokenType else RateLimitedTokenType in
  ({| TokenType := tokenType; IssuerName := issuerName o;
      OriginInfo := originInfo; RedemptionNonce := nonce |}, tokenKey).

Definition context_of (env : Env) (challenge : TokenChallenge) : string :=
  hex_EncodeToString (sha256_Sum256 env (Marshal env challenge)).

(** Lines 114-118: the queue of the context gets the challenge at its end. *)
Definition enqueue (m : gmap string (list TokenChallenge)) (contextEnc : string)
  (challenge : TokenChallenge) : gmap string (list TokenChallenge) :=
  let m1 := match m !! contextEnc with
            | Some _ => m
            | None => <[contextEnc := []]> m
            end in
  <[contextEnc := (default [] (m1 !! contextEnc) ++ [challenge])%list]> m1.

Definition CreateChallenge (env : Env) (o : Origin) (req : Request) (rnd : list byte)
  : string * string * Origin :=
  let '(challenge, tokenKey) := new_challenge env o req rnd in
  let challengeEnc := Marshal env challenge in
  let contextEnc := hex_EncodeToString (sha256_Sum256 env challengeEnc) in
  (base64_EncodeToString env challengeEnc, tokenKey,
   with_challenges o (enqueue (challenges o) contextEnc challenge)).

(** Lines 132-139. *)
Definition challenge_count (req : Request) : nat :=
  let countReq := Header_Get (Header req) headerTokenAttributeChallengeCount in
  if string_eqb countReq "" then 1%nat
  else match strconv_Atoi countReq with
       | Some countVal =>
           if (0 <? countVal) && (countVal <? 10) then Z.to_nat countVal else 1%nat
       | None => 1%nat
       end.

(** Lines 140-148; the [i]-th call of [CreateChallenge] reads the [i]-th
    delivery of the random source. *)
Fixpoint challenge_loop (env : Env) (o : Origin) (req : Request) (count : nat)
  (rnd : list (list byte)) (challengeList : string) : string * Origin :=
  match count with
  | O => (challengeList, o)
  | S count' =>
      let '(challengeEnc, tokenKeyEnc, o') := CreateChallenge env o req (hd [] rnd) in
      let challengeString := authorizationAttributeChallenge ++ "=" ++ challengeEnc in
      let issuerKeyString := authorizationAttributeTokenKey ++ "=" ++ tokenKeyEnc in
      let maxAgeString := authorizationAttributeMaxAge ++ "=" ++ "10" in
      let issuerEncapKeyString :=
        authorizationAttributeNameKey ++ "="
          ++ base64_EncodeToString env (EncapKey_Marshal env (issuerEncapKey o)) in
      challenge_loop env o' req count' (tl rnd)
        (challengeList ++ privateTokenType ++ " " ++ challengeString ++ ", "
           ++ issuerKeyString ++ "," ++ issuerEncapKeyString ++ ", " ++ maxAgeString)
  end.

(** Lines 155-176: the token of the [Authorization] header. *)
Definition tokenPrefix : string := privateTokenType ++ " " ++ "token=".
Definition parse_token (env : Env) (req : Request) : Flow Token :=
  let authValue := Header_Get (Header req) "Authorization" in
  _ ← reject_if (negb (strings_HasPrefix authValue tokenPrefix))
        (StatusText StatusBadRequest) StatusBadRequest;
  tokenValueEnc ← or_panic (strings_SplitAfter authValue tokenPrefix !! 1%nat);
  tokenValue ← try (base64_DecodeString env tokenValueEnc)
                 (fun _ => StatusText StatusBadRequest) StatusBadRequest;
  try (UnmarshalToken env tokenValue)
    (fun _ => StatusText StatusBadRequest) StatusBadRequest.

(** Lines 178-192: the oldest challenge of the token's context is taken off
    its queue, and the queue leaves the map when it is empty. *)
Definition pop_challenge (m : gmap string (list TokenChallenge)) (tokenContextEnc : string)
  : Flow (TokenChallenge * gmap string (list TokenChallenge)) :=
  match m !! tokenContextEnc with
  | None => Reply (Error new_writer (StatusText StatusBadRequest) StatusBadRequest)
  | Some challengeList =>
      challenge ← or_panic (challengeList !! 0%nat);
      let m1 := <[tokenContextEnc := drop 1 (default [] (m !! tokenContextEnc))]> m in
      let m2 := if (length (default [] (m1 !! tokenContextEnc)) =? 0)%nat
                then delete tokenContextEnc m1 else m1 in
      Next (challenge, m2)
  end.

(** Lines 194-212: [rsa.VerifyPSS] dereferences the key. *)
Definition verify_token (env : Env) (o : Origin) (challenge : TokenChallenge)
  (token : Token) : Flow unit :=
  let authInput := AuthenticatorInput env token in
  let key := if TokenType challenge =? BasicPublicTokenType
             then basicValidationKey o else rateLimitedTokenKey o in
  let digest := sha512_Sum384 env authInput in
  key ← or_panic key;
  match rsa_VerifyPSS env key digest (Authenticator token) with
  | Some _ => Reply (Error new_writer (StatusText StatusBadRequest) StatusBadRequest)
  | None => Next tt
  end.

(** Lines 214-238: the protected resource; [upstream] answers the request. *)
Definition fetch_resource (env : Env) (upstream : ClientRequest -> result Response)
  : Flow ResponseWriter :=
  _ ← try (url_Parse env testResource) id StatusInternalServerError;
  let resourceReq := {| cr_method := MethodGet; cr_url := testResource;
                        cr_header := ∅; cr_body := [] |} in
  resp ← try (upstream resourceReq) id StatusInternalServerError;
  body ← try (resp_body resp) id StatusInternalServerError;
  Next (Write new_writer body).

(** What one call of the handler did; [granted] tells that the token passed
    verification and the resource was asked for. *)
Record Handled := {
  response : option ResponseWriter;
  after : Origin;
  granted : bool;
}.

Definition finish (f : Flow ResponseWriter) (o : Origin) (g : bool) : Handled :=
  {| response := match f with
                 | Next w | Reply w => Some w
                 | Panic => None
                 end;
     after := o; granted := g |}.

Definition handleRequest (env : Env) (o : Origin) (rnd : list (list byte))
  (upstream : ClientRequest -> result Response) (req : Request) : Handled :=
  if string_eqb (Header_Get (Header req) "Authorization") "" then
    let '(challengeList, o') :=
      challenge_loop env o req (challenge_count req) rnd "" in
    finish (Reply (Error (SetHeader new_writer "WWW-Authenticate" challengeList)
                     (StatusText StatusUnauthorized) StatusUnauthorized))
      o' false
  else
    match parse_token env req with
    | Reply w => finish (Reply w) o false
    | Panic => finish Panic o false
    | Next token =>
        let tokenContextEnc := hex_EncodeToString (Context token) in
        match pop_challenge (challenges o) tokenContextEnc with
        | Reply w => finish (Reply w) o false
        | Panic => finish Panic o false
        | Next (challenge, m) =>
            let o' := with_challenges o m in
            match verify_token env o challenge token with
            | Reply w => finish (Reply w) o' false
            | Panic => finish Panic o' false
            | Next _ => finish (fetch_resource env upstream) o' true
            end
        end
    end.

(** *** Notions used in the statements *)

(** Every context in the map has a non-empty queue. *)
Definition queues_nonempty (m : gmap string (list TokenChallenge)) : Prop :=
  forall contextEnc q, m !! contextEnc = Some q -> q <> [].

(** The map once the head of the queue at [contextEnc] is gone and [rest]
    is what remains of that queue. *)
Definition popped (m : gmap string (list TokenChallenge)) (contextEnc : string)
  (rest : list TokenChallenge) : gmap string (list TokenChallenge) :=
  match rest with
  | [] => delete contextEnc m
  | _ => <[contextEnc := rest]> m
  end.

(** The key the challenge's type selects is there, and [rsa.VerifyPSS]
    returns an error for the token's authenticator. *)
Definition verification_fails (env : Env) (o : Origin) (challenge : TokenChallenge)
  (token : Token) : Prop :=
  exists key e,
    (if TokenType challenge =? BasicPublicTokenType
     then basicValidationKey o else rateLimitedTokenKey o) = Some key
    /\ rsa_VerifyPSS env key (sha512_Sum384 env (AuthenticatorInput env token))
         (Authenticator token) = Some e.

Definition startOrigin (issuer name : string) (originInfo : list string)
  (rateLimitedKeyEnc basicKeyEnc encapKey : list byte)
  (rateLimitedKey basicKey : option rsa_PublicKey) : Origin :=
  {| issuerName := issuer; originName := name; additionalOriginInfo := originInfo;
     rateLimitedTokenKeyEnc := rateLimitedKeyEnc; rateLimitedTokenKey := rateLimitedKey;
     basicTokenKeyEnc := basicKeyEnc; basicValidationKey := basicKey;
     issuerEncapKey := encapKey; challenges := ∅ |}.

End Origin.

(** ** Handlers that run at the same time

    [net/http] serves every request on a goroutine of its own, and both
    handlers reach the shared maps without holding a lock: the Attester has
    none, [handleRequest] of the Origin never takes [challengeLock], and
    [CreateChallenge], having a value receiver, locks a copy of it. The
    bookkeeping of each handler is written here as the sequence of its map
    operations (one read, write or delete of a map each), and a schedule
    says which handler performs its next operation. *)

Module Concurrent.
Import Go HTTP.

(** [schedule] names, step by step, the thread that moves. *)
Fixpoint run {PC S : Type} (step : PC -> S -> PC * S) (schedule : list nat)
  (threads : list PC) (shared : S) : list PC * S :=
  match schedule with
  | [] => (threads, shared)
  | i :: rest =>
      match threads !! i with
      | None => run step rest threads shared
      | Some pc =>
          let '(pc', shared') := step pc shared in
          run step rest (<[i := pc']> threads) shared'
      end
  end.

(** *** The Origin's pop, lines 178-192 *)

Inductive redeem_result :=
| NoChallenge                                   (* line 180: 400 *)
| Took (challenge : Origin.TokenChallenge)      (* goes on to verify *)
| OutOfRange.                                   (* index or slice bound: panic *)

Inductive redeem_pc :=
| AtLookup                                      (* line 179 *)
| AtSliceRead (challenge : Origin.TokenChallenge)      (* line 187, right-hand side *)
| AtSliceWrite (challenge : Origin.TokenChallenge)
    (tail : list Origin.TokenChallenge)         (* line 187, assignment *)
| AtLen (challenge : Origin.TokenChallenge)     (* line 190 *)
| AtDelete (challenge : Origin.TokenChallenge)  (* line 191 *)
| Redeemed (r : redeem_result).

Definition redeem_step (tokenContextEnc : string) (pc : redeem_pc)
  (m : gmap string (list Origin.TokenChallenge))
  : redeem_pc * gmap string (list Origin.TokenChallenge) :=
  match pc with
  | AtLookup =>
      match m !! tokenContextEnc with
      | None => (Redeemed NoChallenge, m)
      | Some [] => (Redeemed OutOfRange, m)
      | Some (challenge :: _) => (AtSliceRead challenge, m)
      end
  | AtSliceRead challenge =>
      match default [] (m !! tokenContextEnc) with
      | [] => (Redeemed OutOfRange, m)
      | _ :: tail => (AtSliceWrite challenge tail, m)
      end
  | AtSliceWrite challenge tail => (AtLen challenge, <[tokenContextEnc := tail]> m)
  | AtLen challenge =>
      if (length (default [] (m !! tokenContextEnc)) =? 0)%nat
      then (AtDelete challenge, m)
      else (Redeemed (Took challenge), m)
  | AtDelete challenge => (Redeemed (Took challenge), delete tokenContextEnc m)
  | Redeemed r => (Redeemed r, m)
  end.

(** *** The Attester's bookkeeping, lines 232-275

    A [ClientState] holds two references; a copy of the struct shares the
    maps with the stored one. The pair of maps of a [ClientState] lives at an
    address, and [clientState] maps a client to the address of its maps. *)

Record Shared := {
  clientState : gmap string nat;
  maps : gmap nat Attester.ClientState;
}.

Definition maps_at (sh : Shared) (l : nat) : Attester.ClientState :=
  default {| Attester.originIndices := ∅; Attester.originCounts := ∅ |} (maps sh !! l).

Definition set_indices (f : gmap string string -> gmap string string)
  (cs : Attester.ClientState) : Attester.ClientState :=
  {| Attester.originIndices := f (Attester.originIndices cs);
     Attester.originCounts := Attester.originCounts cs |}.
Definition set_counts (f : gmap string Z -> gmap string Z)
  (cs : Attester.ClientState) : Attester.ClientState :=
  {| Attester.originIndices := Attester.originIndices cs;
     Attester.originCounts := f (Attester.originCounts cs) |}.
Definition update_maps (sh : Shared) (l : nat)
  (f : Attester.ClientState -> Attester.ClientState) : Shared :=
  {| clientState := clientState sh; maps := <[l := f (maps_at sh l)]> (maps sh) |}.

Inductive attest_result :=
| Allowed                 (* lines 277-278: the signed bytes *)
| LimitExceeded.          (* line 270: 429 *)

Inductive attest_pc :=
| At232                          (* state, ok := a.clientState[clientID] *)
| At241                          (* a.clientState[clientID] = ClientState{...} *)
| At247 (l : nat)                (* oldIndexEnc, ok := state.originIndices[...] *)
| At252 (l : nat)                (* state.originIndices[...] = indexEnc *)
| At253 (l : nat)                (* state.originCounts[...] = 1 *)
| At266_read (l : nat)           (* state.originCounts[indexEnc] + 1 *)
| At266_write (l : nat) (v : Z)  (* state.originCounts[indexEnc] = ... *)
| At268 (l : nat)                (* state.originCounts[indexEnc] >= tokenLimit *)
| Attested (r : attest_result).

Definition attest_step (clientID anonOriginEnc indexEnc : string) (tokenLimit : Z)
  (pc : attest_pc) (sh : Shared) : attest_pc * Shared :=
  match pc with
  | At232 =>
      match clientState sh !! clientID with
      | None => (At241, sh)
      | Some l => (At247 l, sh)
      end
  | At241 =>
      let l := fresh (dom (maps sh)) in
      (Attested Allowed,
       {| clientState := <[clientID := l]> (clientState sh);
          maps := <[l := {| Attester.originIndices := {[anonOriginEnc := indexEnc]};
                            Attester.originCounts := {[anonOriginEnc := 1]} |}]>
                    (maps sh) |})
  | At247 l =>
      match Attester.originIndices (maps_at sh l) !! anonOriginEnc with
      | None => (At252 l, sh)
      | Some oldIndexEnc =>
          if negb (string_eqb oldIndexEnc indexEnc)
          then (Attested Allowed, sh)        (* err is nil: no rejection *)
          else (At266_read l, sh)
      end
  | At252 l => (At253 l, update_maps sh l (set_indices <[anonOriginEnc := indexEnc]>))
  | At253 l => (Attested Allowed, update_maps sh l (set_counts <[anonOriginEnc := 1]>))
  | At266_read l =>
      (At266_write l
         (int_add (Attester.count_of (Attester.originCounts (maps_at sh l)) indexEnc) 1),
       sh)
  | At266_write l v => (At268 l, update_maps sh l (set_counts <[indexEnc := v]>))
  | At268 l =>
      if tokenLimit <=? Attester.count_of (Attester.originCounts (maps_at sh l)) indexEnc
      then (Attested LimitExceeded, sh)
      else (Attested Allowed, sh)
  | Attested r => (Attested r, sh)
  end.

(** The Attester's state as the handler of one request at a time sees it. *)
Definition view (sh : Shared) : gmap string Attester.ClientState :=
  maps_at sh <$> clientState sh.

(** The count recorded for a client under a key. *)
Definition count_for (sh : Shared) (clientID key : string) : Z :=
  match view sh !! clientID with
  | Some cs => Attester.count_of (Attester.originCounts cs) key
  | None => 0
  end.

(** Every client has maps, and no two clients share theirs. *)
Definition well_formed (sh : Shared) : Prop :=
  (forall c l, clientState sh !! c = Some l -> is_Some (maps sh !! l))
  /\ (forall c1 c2 l, clientState sh !! c1 = Some l -> clientState sh !! c2 = Some l ->
        c1 = c2).

End Concurrent.

(** ** Test doubles

    A concrete environment, requests and Issuers on which the handlers can be
    run: the structured-header decoder returns the bytes of the value, the
    request decoder accepts any body that starts with the rate-limited tag,
    every signature verifies, and the index is the key the Issuer echoed. *)

Module Fixtures.
Import Go HTTP.

Definition fields (l : list (string * string)) : gmap string (list string) :=
  list_to_map ((fun kv => (kv.1, [kv.2])) <$> l).

Definition attester_env : Attester.Env := {|
  Attester.tokenRequestMediaType := "message/token-request";
  Attester.tokenResponseMediaType := "message/token-response";
  Attester.tokenRequestURI := "/token-request";
  Attester.composeURL := fun host path => Ok ("https://" ++ host ++ path);
  Attester.url_Parse := fun _ => Ok tt;
  Attester.unmarshalStructuredBinary := fun s => Ok (bytes_of_string s);
  Attester.Unmarshal := fun body =>
    match body with
    | x00 :: x03 :: rest =>
        Some {| Attester.RequestKey := []; Attester.NameKeyID := [];
                Attester.EncryptedTokenRequest := rest;
                Attester.Signature := replicate 96 x00 |}
    | _ => None
    end;
  Attester.elliptic_UnmarshalCompressed := fun _ => None;
  Attester.sha512_Sum384 := fun message => message;
  Attester.ecdsa_Verify := fun _ _ _ _ => true;
  Attester.FinalizeIndex := fun _ _ blinded => Ok blinded;
|}.

(** The same, with a verifier that accepts no signature. *)
Definition strict_env : Attester.Env := {|
  Attester.tokenRequestMediaType := "message/token-request";
  Attester.tokenResponseMediaType := "message/token-response";
  Attester.tokenRequestURI := "/token-request";
  Attester.composeURL := Attester.composeURL attester_env;
  Attester.url_Parse := Attester.url_Parse attester_env;
  Attester.unmarshalStructuredBinary := Attester.unmarshalStructuredBinary attester_env;
  Attester.Unmarshal := Attester.Unmarshal attester_env;
  Attester.elliptic_UnmarshalCompressed := fun _ => None;
  Attester.sha512_Sum384 := fun message => message;
  Attester.ecdsa_Verify := fun _ _ _ _ => false;
  Attester.FinalizeIndex := fun _ _ blinded => Ok blinded;
|}.

(** A token request of client [default] with the given body, naming the
    anonymous origin [origin]. *)
Definition token_request (origin : string) (body : list byte) : Request := {|
  Method := "POST";
  Header := fields [("Content-Type", "message/token-request");
                    ("Sec-Token-Origin", origin); ("Sec-Token-Client", "ck");
                    ("Sec-Token-Request-Blind", "rb")];
  Query := fields [("issuer", "issuer.example")];
  ReqBody := Ok body;
|}.

(** An Issuer that advertises [limit], echoes [key] and signs [signed]. *)
Definition issuer (limit key : string) (signed : list byte) : Attester.Issuer :=
  fun _ => Ok {| resp_header := fields [("Sec-Token-Limit", limit);
                                        ("Sec-Token-Origin", key)];
                 resp_body := Ok signed |}.

Definition rate_limited_body : list byte := [x00; x03; x01].
Definition basic_body : list byte := [x00; x02; x01].


(** The Origin's doubles: base64 is the identity on bytes, a challenge is
    written out as text, hashes return their input, a token is one byte of
    authenticator followed by its context, and the authenticator [v] is the
    one that verifies. *)
Definition origin_env : Origin.Env := {|
  Origin.base64_EncodeToString := string_of_list_byte;
  Origin.base64_DecodeString := fun s => Ok (bytes_of_string s);
  Origin.Marshal := fun challenge =>
    (bytes_of_string
       ((if Origin.TokenType challenge =? 2 then "2" else "3") ++ ";"
          ++ Origin.IssuerName challenge ++ ";"
          ++ String.concat "," (Origin.OriginInfo challenge) ++ ";")
       ++ Origin.RedemptionNonce challenge)%list;
  Origin.EncapKey_Marshal := fun key => key;
  Origin.sha256_Sum256 := fun message => message;
  Origin.sha512_Sum384 := fun message => message;
  Origin.UnmarshalToken := fun data =>
    match data with
    | authenticator :: context =>
        Ok {| Origin.Token_TokenType := 3; Origin.Nonce := [];
              Origin.Context := context; Origin.KeyID := [];
              Origin.Authenticator := [authenticator] |}
    | [] => Err "short token"
    end;
  Origin.AuthenticatorInput := Origin.Context;
  Origin.rsa_VerifyPSS := fun _ _ authenticator =>
    match authenticator with
    | [x76] => None
    | _ => Some "crypto/rsa: verification error"
    end;
  Origin.url_Parse := fun _ => Ok tt;
|}.

Definition origin : Origin.Origin :=
  Origin.startOrigin "issuer.example" "origin.example" [] [] [] []
    (Some {| Origin.rsa_N := 3233; Origin.rsa_E := 17 |})
    (Some {| Origin.rsa_N := 3233; Origin.rsa_E := 17 |}).

Definition plain_request (headers : list (string * string)) : Request :=
  {| Method := "GET"; Header := fields headers; Query := ∅; ReqBody := Ok [] |}.

(** Asks for [count] challenges that are non-interactive. *)
Definition challenge_request (count : string) : Request :=
  plain_request [("Sec-Token-Attribute-Count", count);
                 ("Sec-Token-Attribute-Non-Interactive", "1")].

(** Presents the token with authenticator [authenticator] for the context of
    the non-interactive challenges of [origin]. *)
Definition redeem_request (authenticator : string) : Request :=
  plain_request [("Authorization",
                  "PrivateToken token=" ++ authenticator
                    ++ "3;issuer.example;origin.example;")].

Definition upstream : ClientRequest -> result Response :=
  fun _ => Ok {| resp_header := ∅; resp_body := Ok (bytes_of_string "resource") |}.

(** The Origin with one non-interactive challenge outstanding, and the
    context of that challenge. *)
Definition challenged_origin : Origin.Origin :=
  Origin.after (Origin.handleRequest origin_env origin [] upstream (challenge_request "1")).
Definition noninteractive_challenge : Origin.TokenChallenge :=
  (Origin.new_challenge origin_env origin (challenge_request "1") []).1.
Definition noninteractive_context : string :=
  Origin.context_of origin_env noninteractive_challenge.

(** The Attester's maps after client [default] was bound to index [6931] for
    the origin [6f31] by a first request: the maps of the client live at
    address 0. *)
Definition bound_shared : Concurrent.Shared := {|
  Concurrent.clientState := {["default" := 0%nat]};
  Concurrent.maps :=
    {[0%nat := {| Attester.originIndices := {["6f31" := "6931"]};
                  Attester.originCounts := {["6f31" := 1]} |}]};
|}.

(** Two handlers that take turns, one map operation each. *)
Definition lockstep : list nat := [0; 1; 0; 1; 0; 1; 0; 1; 0; 1]%nat.
(** One handler runs to its end, then the other. *)
Definition one_by_one : list nat := [0; 0; 0; 0; 0; 1; 1; 1; 1; 1]%nat.

(** The Attester after one accepted request of client [default] for origin
    [o1], which bound the pair to index [i1]. *)
Definition bound_attester : Attester.TestAttester :=
  Attester.after
    (Attester.handleAttestationRequest attester_env Attester.startAttester
       (issuer "2" "i1" [x2a]) (token_request "o1" rate_limited_body)).

End Fixtures.

(** ** Start-up ([startAttester], [startOrigin])

    The two commands check their flags, build the service and hand it to
    [http.ListenAndServeTLS]. [log.Fatal] ends the process; a returned error
    goes back to the command line. *)

Module Startup.
Import Go HTTP.

(** The flags read through [cli.Context]. *)
Record Flags := {
  cert : string;
  key : string;
  port : string;
  issuer : string;
  name : string;
  origin_info : list string;
  log : string;
}.

(** The Issuer's configuration document, as far as [startOrigin] reads it. *)
Record TokenKey := {
  TokenType : Z;
  TokenKey_TokenKey : string;
}.
Record IssuerConfig := {
  TokenKeys : list TokenKey;
  IssuerEncapKeyURI : string;
}.

Record Env := {
  fetchIssuerConfig : string -> result IssuerConfig;
  base64_DecodeString : string -> result (list byte);
  UnmarshalTokenKey : list byte -> result Origin.rsa_PublicKey;
  composeURL : string -> string -> result string;
  fetchIssuerNameKey : string -> result (list byte);
}.

(** How a start-up ends: the process exits, the command returns an error, or
    the handler is registered under [pattern] and the listener is started. *)
Inductive Started (S : Type) : Type :=
| Fatal (msg : string)
| Failed (err : string)
| Serving (addr certFile keyFile pattern : string) (service : S).
Arguments Fatal {S} msg.
Arguments Failed {S} err.
Arguments Serving {S} addr certFile keyFile pattern service.

Definition missing_certificate : string :=
  "Invalid key material (missing certificate). See README for configuration.".
Definition missing_private_key : string :=
  "Invalid key material (missing private key). See README for configuration.".
Definition invalid_issuer : string := "Invalid issuer. See README for configuration.".
Definition invalid_origin_name : string :=
  "Invalid origin name. See README for configuration.".

Definition startAttester (c : Flags) : Started Attester.TestAttester :=
  if string_eqb (cert c) "" then Fatal missing_certificate
  else if string_eqb (key c) "" then Fatal missing_private_key
  else Serving (":" ++ port c) (cert c) (key c) Attester.attesterTokenRequestURI
         Attester.startAttester.

(** The validation keys found so far by the loop of lines 279-300. *)
Record Keys := {
  basicValidationKeyEnc : list byte;
  basicValidationKey : option Origin.rsa_PublicKey;
  rateLimitedTokenKeyEnc : list byte;
  rateLimitedTokenKey : option Origin.rsa_PublicKey;
}.
Definition no_keys : Keys :=
  {| basicValidationKeyEnc := []; basicValidationKey := None;
     rateLimitedTokenKeyEnc := []; rateLimitedTokenKey := None |}.

(** Lines 279-300; [Err] is the message of [log.Fatal]. *)
Fixpoint load_keys (env : Env) (entries : list TokenKey) (keys : Keys) : result Keys :=
  match entries with
  | [] => Ok keys
  | entry :: rest =>
      if TokenType entry =? Origin.BasicPublicTokenType then
        match base64_DecodeString env (TokenKey_TokenKey entry) with
        | Err e => Err e
        | Ok enc =>
            match UnmarshalTokenKey env enc with
            | Err e => Err e
            | Ok k =>
                load_keys env rest
                  {| basicValidationKeyEnc := enc; basicValidationKey := Some k;
                     rateLimitedTokenKeyEnc := rateLimitedTokenKeyEnc keys;
                     rateLimitedTokenKey := rateLimitedTokenKey keys |}
            end
        end
      else if TokenType entry =? Origin.RateLimitedTokenType then
        match base64_DecodeString env (TokenKey_TokenKey entry) with
        | Err e => Err e
        | Ok enc =>
            match UnmarshalTokenKey env enc with
            | Err e => Err e
            | Ok k =>
                load_keys env rest
                  {| basicValidationKeyEnc := basicValidationKeyEnc keys;
                     basicValidationKey := basicValidationKey keys;
                     rateLimitedTokenKeyEnc := enc; rateLimitedTokenKey := Some k |}
            end
        end
      else load_keys env rest keys
  end.

Definition startOrigin (env : Env) (c : Flags) : Started Origin.Origin :=
  if string_eqb (cert c) "" then Fatal missing_certificate
  else if string_eqb (key c) "" then Fatal missing_private_key
  else if string_eqb (issuer c) "" then Fatal invalid_issuer
  else if string_eqb (name c) "" then Fatal invalid_origin_name
  else
    match fetchIssuerConfig env (issuer c) with
    | Err e => Failed e
    | Ok issuerConfig =>
        match load_keys env (TokenKeys issuerConfig) no_keys with
        | Err e => Fatal e
        | Ok keys =>
            match composeURL env (issuer c) (IssuerEncapKeyURI issuerConfig) with
            | Err e => Failed e
            | Ok nameKeyURI =>
                match fetchIssuerNameKey env nameKeyURI with
                | Err e => Failed e
                | Ok originNameKey =>
                    Serving (":" ++ port c) (cert c) (key c) "/"
                      (Origin.startOrigin (issuer c) (name c) (origin_info c)
                         (rateLimitedTokenKeyEnc keys) (basicValidationKeyEnc keys)
                         originNameKey
                         (rateLimitedTokenKey keys) (basicValidationKey keys))
                end
            end
        end
    end.

(** The last entry of the configuration that has the given type. *)
Definition last_of_type (t : Z) (entries : list TokenKey) : option TokenKey :=
  last (List.filter (fun entry => TokenType entry =? t) entries).

(** The entry decodes to [enc], and [enc] to the key [k]. *)
Definition decodes_to (env : Env) (entry : TokenKey) (enc : list byte)
  (k : Origin.rsa_PublicKey) : Prop :=
  base64_DecodeString env (TokenKey_TokenKey entry) = Ok enc
  /\ UnmarshalTokenKey env enc = Ok k.

(** What the loop leaves for a type: the decoding of the last entry of
    that type, or what was there before when no entry has the type. *)
Definition loaded (env : Env) (entries : list TokenKey) (t : Z)
  (enc0 : list byte) (k0 : option Origin.rsa_PublicKey)
  (enc : list byte) (k : option Origin.rsa_PublicKey) : Prop :=
  match last_of_type t entries with
  | Some entry => exists key, decodes_to env entry enc key /\ k = Some key
  | None => enc = enc0 /\ k = k0
  end.

End Startup.

(** ** Further notions used in the statements *)

Module Notions.
Import Go HTTP.

(** Lines 135-139: the client a rate-limited request is accounted to. *)
Definition client_id_of (req : Request) : string :=
  if string_eqb (Header_Get (Header req) Attester.headerClientID) "" then "default"
  else Header_Get (Header req) Attester.headerClientID.

(** The index recorded for a pair, if any. *)
Definition recorded_index (a : Attester.TestAttester) (c anon : string) : option string :=
  cs ← Attester.clientState a !! c; Attester.originIndices cs !! anon.

(** The number of challenges queued, over all contexts. *)
Definition outstanding (m : gmap string (list Origin.TokenChallenge)) : nat :=
  sum_list (length <$> (map_to_list m).*2).

(** The queue of a context; none is the empty queue. *)
Definition queue_of (m : gmap string (list Origin.TokenChallenge)) (contextEnc : string)
  : list Origin.TokenChallenge :=
  default [] (m !! contextEnc).

(** The token type the request asks for, by precedence: a header that is a
    number decides; otherwise a query parameter that is a number decides. *)
Definition asks_basic (req : Request) : bool :=
  match strconv_Atoi (Header_Get (Header req) Origin.headerTokenType) with
  | Some n => n =? Origin.BasicPublicTokenType
  | None =>
      match strconv_Atoi (Values_Get (Query req) "type") with
      | Some n => n =? Origin.BasicPublicTokenType
      | None => false
      end
  end.

(** The key that [verify_token] takes for a challenge. *)
Definition validation_key (o : Origin.Origin) (challenge : Origin.TokenChallenge)
  : option Origin.rsa_PublicKey :=
  if Origin.TokenType challenge =? Origin.BasicPublicTokenType
  then Origin.basicValidationKey o else Origin.rateLimitedTokenKey o.

(** The token's authenticator verifies under the key of the challenge. *)
Definition verifies (env : Origin.Env) (o : Origin.Origin)
  (challenge : Origin.TokenChallenge) (token : Origin.Token) : Prop :=
  exists k, validation_key o challenge = Some k
    /\ Origin.rsa_VerifyPSS env k
         (Origin.sha512_Sum384 env (Origin.AuthenticatorInput env token))
         (Origin.Authenticator token) = None.

End Notions.

(** ** More test doubles *)

Module MoreFixtures.
Import Go HTTP Fixtures.

(** A token request sent with GET. *)
Definition get_request : Request := {|
  Method := "GET";
  Header := Header (token_request "o1" rate_limited_body);
  Query := Query (token_request "o1" rate_limited_body);
  ReqBody := Ok rate_limited_body;
|}.

(** A rate-limited request without the client-key header. *)
Definition keyless_request : Request := {|
  Method := "POST";
  Header := fields [("Content-Type", "message/token-request");
                    ("Sec-Token-Origin", "o1"); ("Sec-Token-Request-Blind", "rb")];
  Query := fields [("issuer", "issuer.example")];
  ReqBody := Ok rate_limited_body;
|}.

(** A rate-limited request of client [client] for origin [origin]. *)
Definition client_request (client origin : string) : Request := {|
  Method := "POST";
  Header := fields [("Content-Type", "message/token-request");
                    ("Sec-Token-Origin", origin); ("Sec-Token-Client", "ck");
                    ("Sec-Token-Request-Blind", "rb"); ("Sec-Client-Id", client)];
  Query := fields [("issuer", "issuer.example")];
  ReqBody := Ok rate_limited_body;
|}.

(** An Issuer that cannot be reached. *)
Definition unreachable : Attester.Issuer := fun _ => Err "connection refused".

(** The Origin of the fixtures without validation keys, one non-interactive
    challenge outstanding. *)
Definition keyless_origin : Origin.Origin :=
  Origin.after
    (Origin.handleRequest origin_env
       (Origin.startOrigin "issuer.example" "origin.example" [] [] [] [] None None)
       [] upstream (challenge_request "1")).

(** A request whose credential is of another scheme. *)
Definition bearer_request : Request := plain_request [("Authorization", "Bearer abc")].

(** Start-up: keys are the bytes of their text, and a key of those bytes has
    their number as modulus; the text [bad] does not decode. *)
Definition config (entries : list Startup.TokenKey) : Startup.IssuerConfig :=
  {| Startup.TokenKeys := entries; Startup.IssuerEncapKeyURI := "/encap" |}.
Definition startup_env (entries : list Startup.TokenKey) : Startup.Env := {|
  Startup.fetchIssuerConfig := fun _ => Ok (config entries);
  Startup.base64_DecodeString := fun s =>
    if string_eqb s "bad" then Err "illegal base64 data" else Ok (bytes_of_string s);
  Startup.UnmarshalTokenKey := fun enc =>
    Ok {| Origin.rsa_N := Z.of_nat (length enc); Origin.rsa_E := 65537 |};
  Startup.composeURL := fun host path => Ok ("https://" ++ host ++ path);
  Startup.fetchIssuerNameKey := fun _ => Ok [];
|}.
Definition entry (t : Z) (text : string) : Startup.TokenKey :=
  {| Startup.TokenType := t; Startup.TokenKey_TokenKey := text |}.
Definition flags : Startup.Flags := {|
  Startup.cert := "cert.pem"; Startup.key := "key.pem"; Startup.port := "4568";
  Startup.issuer := "issuer.example"; Startup.name := "origin.example";
  Startup.origin_info := []; Startup.log := "debug";
|}.

End MoreFixtures.

(** * Checks of the library models *)

Example hex_example : Go.hex_EncodeToString [x00; xab; xff] = "00abff".
Proof. reflexivity. Qed.
Example atoi_examples :
  Go.strconv_Atoi "2" = Some 2 /\ Go.strconv_Atoi "-17" = Some (-17) /\
  Go.strconv_Atoi "" = None /\ Go.strconv_Atoi "1_0" = None /\
  Go.strconv_Atoi "9223372036854775808" = None.
Proof. repeat split; reflexivity. Qed.
Example canonical_example :
  HTTP.CanonicalMIMEHeaderKey "sec-token-origin" = "Sec-Token-Origin".
Proof. reflexivity. Qed.
Example splitAfter_example :
  Go.strings_SplitAfter "k=abk=c" "k=" = ["k="; "abk="; "c"].
Proof. reflexivity. Qed.


(** * Facts about the Attester *)

Module AttesterLemmas.
Import Go HTTP Attester.

Lemma status_of_Error msg code : status_of (Error new_writer msg code) = code.
Proof. reflexivity. Qed.

Lemma string_eqb_true a b : string_eqb a b = true <-> a = b.
Proof. unfold string_eqb. apply bool_decide_eq_true. Qed.

Lemma string_eqb_false a b : string_eqb a b = false <-> a <> b.
Proof. unfold string_eqb. apply bool_decide_eq_false. Qed.

Lemma string_eqb_refl a : string_eqb a a = true.
Proof. by apply string_eqb_true. Qed.

Lemma rejects_reject_if c msg code : rejects_with code (reject_if c msg code).
Proof. destruct c; simpl; auto. Qed.

Lemma rejects_try {A} (r : result A) msg code : rejects_with code (try r msg code).
Proof. destruct r; simpl; auto. Qed.

Lemma rejects_bind {A B} code (m : Flow A) (k : A -> Flow B) :
  rejects_with code m -> (forall a, m = Next a -> rejects_with code (k a)) ->
  rejects_with code (m ≫= k).
Proof. destruct m; simpl; auto. Qed.

Lemma rejects_Reply {A} code (f : Flow A) :
  rejects_with code f -> (forall a, f <> Next a) ->
  exists w, f = Reply w /\ status_of w = code.
Proof.
  destruct f as [a|w|]; simpl; intros H Hn; [by destruct (Hn a) | eauto | done].
Qed.

Ltac flow_checks :=
  repeat (apply rejects_bind;
          [first [apply rejects_reject_if | apply rejects_try] | intros ? ?]).

Lemma prepare_rejects env req : rejects_with 400 (prepare env req).
Proof. unfold prepare. flow_checks. exact I. Qed.

Ltac split_checks H :=
  repeat (match type of H with
          | context [if ?c then _ else _] => destruct c eqn:?; simpl in H; try discriminate
          | context [match ?r with Ok _ => _ | Err _ => _ end] =>
              destruct r eqn:?; simpl in H; try discriminate
          | context [match ?r with Some _ => _ | None => _ end] =>
              destruct r eqn:?; simpl in H; try discriminate
          end).

Lemma prepare_body env req body tokenReq :
  prepare env req = Next (body, tokenReq) ->
  ReqBody req = Ok body /\ cr_body tokenReq = body.
Proof.
  unfold prepare, reject_if, try, http_NewRequest. intros H.
  split_checks H. inversion H; subst. auto.
Qed.


(** The handler on a request that reaches the bookkeeping. *)
Lemma handle_rate_limited env a issuer req tokenReq c anon idx L sig :
  rate_limited_inputs env issuer req = Some (tokenReq, c, anon, idx, L, sig) ->
  handleAttestationRequest env a issuer req =
    finish (_ ← (update_state (clientState a) c anon idx L None).1;
            Next (write_token env sig))
      {| clientState := (update_state (clientState a) c anon idx L None).2 |}
      [tokenReq].
Proof.
  unfold rate_limited_inputs, handleAttestationRequest. intros H.
  destruct (prepare env req) as [[body tr]| |]; try discriminate.
  destruct (BigEndian_Uint16 body) as [t|]; try discriminate.
  destruct (t =? RateLimitedTokenType); try discriminate.
  destruct (verify_request env req body) as [[[[ao ck] rb] cid]| |]; try discriminate.
  destruct (read_response env (issuer tr) ck rb) as [[[l bs] ie]| |]; try discriminate.
  inversion H; subst.
  by destruct (update_state (clientState a) c (hex_EncodeToString ao) idx L None).
Qed.




Lemma int_add_1 n : int_min <= n < int_max -> int_add n 1 = n + 1.
Proof.
  unfold int_add, int_wrap, int_min, int_max. intros H.
  rewrite Z.mod_small; lia.
Qed.

Lemma count_of_insert m k v : count_of (<[k := v]> m) k = v.
Proof. unfold count_of. by rewrite lookup_insert_eq. Qed.

Lemma count_of_insert_ne m k k' v : k <> k' -> count_of (<[k := v]> m) k' = count_of m k'.
Proof. unfold count_of. intros. by rewrite lookup_insert_ne. Qed.


Lemma update_state_mismatch st c anon idx L cs old :
  st !! c = Some cs -> originIndices cs !! anon = Some old -> old <> idx ->
  update_state st c anon idx L None = (Next tt, st).
Proof.
  unfold update_state. intros -> -> Hne.
  apply string_eqb_false in Hne. by rewrite Hne.
Qed.

Lemma update_state_match st c anon idx L err n :
  tracked {| clientState := st |} c anon idx n -> int_min <= n < int_max ->
  exists st', update_state st c anon idx L err =
                (if L <=? n + 1
                 then Reply (Error new_writer "Limit exceeded" StatusTooManyRequests)
                 else Next tt, st')
              /\ tracked {| clientState := st' |} c anon idx (n + 1).
Proof.
  unfold tracked, update_state. simpl. intros (cs & Hc & Hi & Hn) Hr.
  rewrite Hc, Hi, string_eqb_refl. simpl. rewrite count_of_insert, Hn, int_add_1 by done.
  eexists; split; [destruct (L <=? n + 1); reflexivity|].
  eexists. rewrite lookup_insert_eq. split; [done|]. simpl.
  by rewrite count_of_insert.
Qed.

End AttesterLemmas.

Module AttesterClaims.
Import AttesterLemmas.
Import Go HTTP Attester.

Lemma verify_request_fails env req body :
  Unmarshal env body = None \/ signature_fails env body ->
  exists w, verify_request env req body = Reply w /\ status_of w = 400.
Proof.
  unfold verify_request.
  intros [H | (tr & r & s & m & Hu & Hs & Hm & Hv)].
  - rewrite H. simpl. eexists; split; reflexivity.
  - rewrite Hu. simpl.
    destruct (parseStructuredBinaryHeader env req headerTokenOrigin); simpl;
      [|eexists; split; reflexivity].
    destruct (parseStructuredBinaryHeader env req headerClientKey); simpl;
      [|eexists; split; reflexivity].
    destruct (parseStructuredBinaryHeader env req headerRequestBlind); simpl;
      [|eexists; split; reflexivity].
    rewrite Hs. simpl. rewrite Hm. simpl. rewrite Hv. simpl.
    eexists; split; reflexivity.
Qed.

(** C1. A request of a known (client, origin) pair whose derived index differs
    from the recorded one is not rejected: the guard at line 259 tests [err],
    which is nil there, so the handler falls through to lines 277-278 and
    answers 200 with the Issuer's signed bytes, the state as it was. *)
Theorem index_mismatch_accepted env a issuer req tokenReq c anon idx L sig cs old :
  rate_limited_inputs env issuer req = Some (tokenReq, c, anon, idx, L, sig) ->
  clientState a !! c = Some cs ->
  originIndices cs !! anon = Some old ->
  old <> idx ->
  handleAttestationRequest env a issuer req =
    {| response := Some (write_token env sig); after := a; forwarded := [tokenReq] |}
  /\ status_of (write_token env sig) = 200
  /\ w_body (write_token env sig) = sig.
Proof.
  intros Hin Hc Ho Hne. split; [|done].
  rewrite (handle_rate_limited _ _ _ _ _ _ _ _ _ _ Hin).
  rewrite (update_state_mismatch _ _ _ _ _ _ _ Hc Ho Hne). simpl.
  by destruct a.
Qed.


(** C3. A rate-limited request whose body does not decode, or whose signature
    does not verify, is answered 400; nothing is sent to the Issuer and the
    state stays as it was. *)
Theorem bad_request_not_forwarded env a issuer req body :
  ReqBody req = Ok body ->
  BigEndian_Uint16 body = Some RateLimitedTokenType ->
  Unmarshal env body = None \/ signature_fails env body ->
  let h := handleAttestationRequest env a issuer req in
  (exists w, response h = Some w /\ status_of w = 400)
  /\ forwarded h = [] /\ after h = a.
Proof.
  intros Hb Ht Hbad. unfold handleAttestationRequest.
  pose proof (prepare_rejects env req) as Hp.
  destruct (prepare env req) as [[body' tokenReq]|w|] eqn:E; simpl in Hp.
  - apply prepare_body in E as [E _]. rewrite Hb in E. inversion E; subst body'.
    rewrite Ht. simpl.
    destruct (verify_request_fails env req body Hbad) as (w & -> & Hw).
    simpl. eauto.
  - simpl. eauto.
  - done.
Qed.

Lemma serve_length env reqs : forall a, length (serve env a reqs) = length reqs.
Proof. induction reqs as [|[? ?] rest IH]; intros a; simpl; auto. Qed.

Lemma handle_basic env a issuer req body tokenReq :
  prepare env req = Next (body, tokenReq) ->
  BigEndian_Uint16 body = Some BasicPublicTokenType ->
  let h := handleAttestationRequest env a issuer req in
  forwarded h = [tokenReq] /\ cr_body tokenReq = body /\ after h = a
  /\ (forall resp sig, issuer tokenReq = Ok resp -> resp_body resp = Ok sig ->
        response h = Some (write_token env sig)).
Proof.
  intros Hp Ht. unfold handleAttestationRequest. rewrite Hp, Ht. simpl.
  repeat split; try done.
  - by apply prepare_body in Hp as [_ ?].
  - intros resp sig -> Hb. simpl. by rewrite Hb.
Qed.

(** C6. Basic requests that pass the format checks are proxied: each is sent
    to the Issuer with its body, the body the Issuer returns is written back
    as it is with status 200, and the Attester's state is the same after as
    before. [N] such requests make [N] forwards; started with no client
    state, the Attester ends with none. *)
Theorem basic_is_pure_proxy env a reqs :
  Forall (is_basic env) reqs ->
  let hs := serve env a reqs in
  length (concat (forwarded <$> hs)) = length reqs
  /\ final_state a hs = a
  /\ (clientState a = ∅ -> clientState (final_state a hs) = ∅)
  /\ (forall k issuer req h,
        reqs !! k = Some (issuer, req) -> hs !! k = Some h ->
        exists body tokenReq,
          prepare env req = Next (body, tokenReq)
          /\ forwarded h = [tokenReq] /\ cr_body tokenReq = body /\ after h = a
          /\ (forall resp sig, issuer tokenReq = Ok resp -> resp_body resp = Ok sig ->
                exists w, response h = Some w /\ w_body w = sig /\ status_of w = 200)).
Proof.
  intros Hall. simpl.
  assert (forall k issuer req h,
            reqs !! k = Some (issuer, req) -> serve env a reqs !! k = Some h ->
            exists body tokenReq,
              prepare env req = Next (body, tokenReq)
              /\ forwarded h = [tokenReq] /\ cr_body tokenReq = body /\ after h = a
              /\ (forall resp sig, issuer tokenReq = Ok resp -> resp_body resp = Ok sig ->
                    exists w, response h = Some w /\ w_body w = sig /\ status_of w = 200))
    as Heach.
  { induction Hall as [|[i r] rest Hb Hall IH];
      intros k issuer req h Hk Hh; [destruct k; discriminate|].
    destruct Hb as (body & tokenReq & Hp & Ht).
    simpl in Hp, Ht, Hh.
    destruct (handle_basic env a i r body tokenReq Hp Ht) as (Hf & Hb & Ha & Hr).
    destruct k as [|k]; simpl in Hk, Hh.
    - injection Hk as <- <-. injection Hh as <-. exists body, tokenReq.
      repeat split; try done. intros resp sig Hi Hs.
      rewrite (Hr resp sig Hi Hs). eauto.
    - rewrite Ha in Hh. eauto. }
  assert (final_state a (serve env a reqs) = a) as Hfinal.
  { unfold final_state. destruct (last (serve env a reqs)) as [h|] eqn:El; [|done].
    apply last_Some in El as [front El].
    assert (serve env a reqs !! length front = Some h) as Hh
      by (rewrite El; apply list_lookup_middle; done).
    destruct (reqs !! length front) as [[i r]|] eqn:Hk.
    - by destruct (Heach _ _ _ _ Hk Hh) as (? & ? & _ & _ & _ & ? & _).
    - apply lookup_ge_None in Hk. apply lookup_lt_Some in Hh.
      rewrite serve_length in Hh. lia. }
  repeat split; try done.
  - clear Hfinal. revert Heach. generalize a at 1 3.
    induction reqs as [|[i r] rest IH]; intros b Heach; [done|].
    simpl. rewrite length_app.
    destruct (Heach 0%nat i r _ eq_refl eq_refl) as (? & ? & _ & -> & _ & Ha & _).
    simpl. f_equal. rewrite Ha. apply IH.
    + by apply Forall_cons in Hall as [_ ?].
    + intros k issuer req h Hk Hh. apply (Heach (S k) issuer req h Hk).
      simpl. by rewrite Ha.
  - by rewrite Hfinal.
Qed.


End AttesterClaims.

(** ** The Attester's claims on concrete requests *)

Module AttesterRuns.
Import Go HTTP Attester Fixtures AttesterLemmas AttesterClaims.

Lemma index_mismatch_accepted_witness :
  let h := handleAttestationRequest attester_env bound_attester
             (issuer "2" "i2" [x2b]) (token_request "o1" rate_limited_body) in
  (status_of <$> response h) = Some 200
  /\ (w_body <$> response h) = Some [x2b]
  /\ after h = bound_attester.
Proof.
  intros h.
  edestruct (index_mismatch_accepted attester_env bound_attester
               (issuer "2" "i2" [x2b]) (token_request "o1" rate_limited_body))
    as (Hh & Hs & Hb).
  - vm_compute. reflexivity.
  - vm_compute. reflexivity.
  - vm_compute. reflexivity.
  - discriminate.
  - subst h. rewrite Hh. cbn [response after fmap option_fmap option_map].
    rewrite Hs, Hb. done.
Defined.



Lemma bad_request_not_forwarded_witness :
  let h := handleAttestationRequest strict_env startAttester
             (issuer "2" "i1" [x2a]) (token_request "o1" rate_limited_body) in
  (exists w, response h = Some w /\ status_of w = 400)
  /\ forwarded h = [] /\ after h = startAttester.
Proof.
  apply (bad_request_not_forwarded strict_env startAttester
           (issuer "2" "i1" [x2a]) (token_request "o1" rate_limited_body)
           rate_limited_body).
  - reflexivity.
  - reflexivity.
  - right. eexists _, _, _, _. repeat split; vm_compute; reflexivity.
Defined.

Lemma basic_is_pure_proxy_witness :
  let reqs := replicate 3 (issuer "2" "i1" [x2a], token_request "o1" basic_body) in
  let hs := serve attester_env startAttester reqs in
  length (concat (forwarded <$> hs)) = 3%nat
  /\ clientState (final_state startAttester hs) = ∅.
Proof.
  intros reqs hs.
  destruct (basic_is_pure_proxy attester_env startAttester reqs) as (Hn & _ & He & _).
  - repeat constructor; eexists _, _; split; vm_compute; reflexivity.
  - split; [exact Hn | by apply He].
Defined.


End AttesterRuns.

(** * Facts about the Origin *)

Module OriginLemmas.
Import Go HTTP Origin AttesterLemmas.

Lemma enqueue_appends m contextEnc challenge :
  enqueue m contextEnc challenge =
    <[contextEnc := (default [] (m !! contextEnc) ++ [challenge])%list]> m.
Proof.
  unfold enqueue. destruct (m !! contextEnc) as [q|] eqn:E.
  - by rewrite E.
  - by rewrite lookup_insert_eq, insert_insert_eq.
Qed.

Lemma enqueue_nonempty m contextEnc challenge :
  queues_nonempty m -> queues_nonempty (enqueue m contextEnc challenge).
Proof.
  intros Hm k q. rewrite enqueue_appends, lookup_insert.
  case_decide as Hk.
  - intros [= <-]. by destruct (default [] (m !! contextEnc)).
  - apply Hm.
Qed.

Lemma popped_nonempty m contextEnc rest :
  queues_nonempty m -> queues_nonempty (popped m contextEnc rest).
Proof.
  intros Hm k q. unfold popped. destruct rest as [|c rest].
  - rewrite lookup_delete. case_decide; [done | apply Hm].
  - rewrite lookup_insert. case_decide; [by intros [= <-] | apply Hm].
Qed.

Lemma popped_lookup m contextEnc rest :
  popped m contextEnc rest !! contextEnc =
    match rest with [] => None | _ => Some rest end.
Proof.
  unfold popped. destruct rest.
  - apply lookup_delete_eq.
  - apply lookup_insert_eq.
Qed.

Lemma pop_challenge_absent m contextEnc :
  m !! contextEnc = None ->
  pop_challenge m contextEnc =
    Reply (Error new_writer (StatusText StatusBadRequest) StatusBadRequest).
Proof. unfold pop_challenge. by intros ->. Qed.

Lemma pop_challenge_head m contextEnc c rest :
  m !! contextEnc = Some (c :: rest) ->
  pop_challenge m contextEnc = Next (c, popped m contextEnc rest).
Proof.
  unfold pop_challenge, popped. intros ->. simpl.
  rewrite lookup_insert_eq. simpl. destruct rest as [|c' rest]; simpl.
  - by rewrite delete_insert_eq.
  - done.
Qed.

Lemma pop_challenge_nonempty m contextEnc c m' :
  queues_nonempty m -> pop_challenge m contextEnc = Next (c, m') ->
  queues_nonempty m'.
Proof.
  intros Hm Hp. destruct (m !! contextEnc) as [[|c' rest]|] eqn:E.
  - by destruct (Hm _ _ E).
  - rewrite (pop_challenge_head _ _ _ _ E) in Hp. injection Hp as <- <-.
    by apply popped_nonempty.
  - by rewrite (pop_challenge_absent _ _ E) in Hp.
Qed.

Lemma CreateChallenge_spec env o req rnd :
  CreateChallenge env o req rnd =
    (base64_EncodeToString env (Marshal env (new_challenge env o req rnd).1),
     (new_challenge env o req rnd).2,
     with_challenges o
       (enqueue (challenges o) (context_of env (new_challenge env o req rnd).1)
          (new_challenge env o req rnd).1)).
Proof. unfold CreateChallenge. by destruct (new_challenge env o req rnd). Qed.

Lemma challenge_loop_nonempty env req count : forall o rnd acc,
  queues_nonempty (challenges o) ->
  queues_nonempty (challenges (challenge_loop env o req count rnd acc).2).
Proof.
  induction count as [|count IH]; intros o rnd acc Ho; [done|].
  cbn [challenge_loop]. rewrite CreateChallenge_spec. apply IH. simpl.
  by apply enqueue_nonempty.
Qed.

Lemma parse_token_authorized env req token :
  parse_token env req = Next token ->
  string_eqb (Header_Get (Header req) "Authorization") "" = false.
Proof.
  unfold parse_token. intros H. apply string_eqb_false. intros E.
  rewrite E in H. discriminate.
Qed.

(** The handler on a request whose token parses. *)
Lemma handle_redeem env o rnd upstream req token :
  parse_token env req = Next token ->
  handleRequest env o rnd upstream req =
    match pop_challenge (challenges o) (hex_EncodeToString (Context token)) with
    | Reply w => finish (Reply w) o false
    | Panic => finish Panic o false
    | Next (challenge, m) =>
        match verify_token env o challenge token with
        | Reply w => finish (Reply w) (with_challenges o m) false
        | Panic => finish Panic (with_challenges o m) false
        | Next _ => finish (fetch_resource env upstream) (with_challenges o m) true
        end
    end.
Proof.
  intros Hp. unfold handleRequest.
  by rewrite (parse_token_authorized _ _ _ Hp), Hp.
Qed.

Lemma verify_token_fails env o challenge token :
  verification_fails env o challenge token ->
  verify_token env o challenge token =
    Reply (Error new_writer (StatusText StatusBadRequest) StatusBadRequest).
Proof.
  intros (key & e & Hk & Hv). unfold verify_token. rewrite Hk. simpl. by rewrite Hv.
Qed.



End OriginLemmas.

Module OriginClaims.
Import Go HTTP Origin AttesterLemmas OriginLemmas.

(** C4. A redemption attempt whose token names a context with no queue is
    answered 400. Where a queue exists, its oldest challenge is taken off
    before the authenticator is looked at: the state after the handler has the
    rest of the queue whatever the verification says, and when verification
    fails the answer is 400 and nothing is granted. *)
Theorem redemption_pops_then_verifies env o rnd upstream req token :
  parse_token env req = Next token ->
  let contextEnc := hex_EncodeToString (Context token) in
  let h := handleRequest env o rnd upstream req in
  (challenges o !! contextEnc = None ->
     (exists w, response h = Some w /\ status_of w = 400)
     /\ after h = o /\ granted h = false)
  /\ (forall c rest, challenges o !! contextEnc = Some (c :: rest) ->
        after h = with_challenges o (popped (challenges o) contextEnc rest)
        /\ challenges (after h) !! contextEnc
             = match rest with [] => None | _ => Some rest end
        /\ (verification_fails env o c token ->
              (exists w, response h = Some w /\ status_of w = 400)
              /\ granted h = false)).
Proof.
  intros Hp contextEnc h. subst h. rewrite (handle_redeem _ _ _ _ _ _ Hp).
  fold contextEnc. split.
  - intros Hn. rewrite (pop_challenge_absent _ _ Hn). simpl. eauto.
  - intros c rest Hq. rewrite (pop_challenge_head _ _ _ _ Hq).
    assert (forall f g, challenges (after (finish f
              (with_challenges o (popped (challenges o) contextEnc rest)) g))
              !! contextEnc = match rest with [] => None | _ => Some rest end) as Hl
      by (intros; apply popped_lookup).
    split; [by destruct (verify_token env o c token)|].
    split; [by destruct (verify_token env o c token)|].
    intros Hf. rewrite (verify_token_fails _ _ _ _ Hf). simpl. eauto.
Qed.



(** C8. In the Origin's map every context present holds a non-empty queue.
    [CreateChallenge] puts the new challenge at the end of the queue of its
    context, making the queue when there is none; a redemption takes the
    oldest challenge off and drops the context from the map when nothing is
    left; both, and so every run of the handler, keep the invariant. *)
Theorem queues_stay_nonempty env o :
  queues_nonempty (challenges o) ->
  (forall req rnd,
     let challenge := (new_challenge env o req rnd).1 in
     let o' := (CreateChallenge env o req rnd).2 in
     challenges o' =
       <[context_of env challenge :=
           (default [] (challenges o !! context_of env challenge) ++ [challenge])%list]>
         (challenges o)
     /\ queues_nonempty (challenges o'))
  /\ (forall rnd upstream req token c rest,
        parse_token env req = Next token ->
        challenges o !! hex_EncodeToString (Context token) = Some (c :: rest) ->
        challenges (after (handleRequest env o rnd upstream req)) =
          match rest with
          | [] => delete (hex_EncodeToString (Context token)) (challenges o)
          | _ => <[hex_EncodeToString (Context token) := rest]> (challenges o)
          end)
  /\ (forall rnd upstream req,
        queues_nonempty (challenges (after (handleRequest env o rnd upstream req)))).
Proof.
  intros Ho. repeat split.
  - rewrite CreateChallenge_spec. simpl. apply enqueue_appends.
  - rewrite CreateChallenge_spec. simpl. by apply enqueue_nonempty.
  - intros rnd upstream req token c rest Hp Hq.
    rewrite (handle_redeem _ _ _ _ _ _ Hp), (pop_challenge_head _ _ _ _ Hq).
    by destruct (verify_token env o c token).
  - intros rnd upstream req. unfold handleRequest.
    destruct (string_eqb _ _).
    + pose proof (challenge_loop_nonempty env req (challenge_count req) o rnd "" Ho) as Hl.
      by destruct (challenge_loop env o req (challenge_count req) rnd "").
    + destruct (parse_token env req) as [token| |]; try done.
      destruct (pop_challenge _ _) as [[c m]| |] eqn:E; try done.
      apply (pop_challenge_nonempty _ _ _ _ Ho) in E.
      by destruct (verify_token env o c token).
Qed.

End OriginClaims.

(** ** The Origin's claims on concrete requests *)

Module OriginRuns.
Import Go HTTP Origin Fixtures OriginLemmas OriginClaims.

Lemma redemption_pops_then_verifies_witness :
  let h := handleRequest origin_env challenged_origin [] upstream (redeem_request "x") in
  (exists w, response h = Some w /\ status_of w = 400)
  /\ granted h = false
  /\ challenges (after h) = ∅.
Proof.
  intros h.
  edestruct (redemption_pops_then_verifies origin_env challenged_origin [] upstream
               (redeem_request "x")) as [_ Hq]; [vm_compute; reflexivity|].
  edestruct Hq as (Ha & _ & Hv); [vm_compute; reflexivity|].
  destruct Hv as [Hw Hg]; [eexists _, _; split; vm_compute; reflexivity|].
  split; [exact Hw|]. split; [exact Hg|].
  subst h. rewrite Ha. vm_compute. reflexivity.
Defined.



Lemma queues_stay_nonempty_witness :
  queues_nonempty (challenges origin)
  /\ queues_nonempty
       (challenges (after (handleRequest origin_env origin [] upstream
                             (challenge_request "2")))).
Proof.
  assert (queues_nonempty (challenges origin)) as H0.
  { intros k q. simpl. by rewrite lookup_empty. }
  split; [exact H0|].
  destruct (queues_stay_nonempty origin_env origin H0) as (_ & _ & Hh).
  apply Hh.
Defined.

End OriginRuns.

(** * Facts about handlers that run at the same time *)

Module ConcurrentLemmas.
Import Go HTTP Concurrent AttesterLemmas OriginLemmas.

(** One redemption that runs with no other in between does what
    [Origin.pop_challenge] does. *)
Lemma redeem_alone m tokenContextEnc :
  run (redeem_step tokenContextEnc) (replicate 5 0%nat) [AtLookup] m =
    match Origin.pop_challenge m tokenContextEnc with
    | Next (challenge, m') => ([Redeemed (Took challenge)], m')
    | Reply _ => ([Redeemed NoChallenge], m)
    | Panic => ([Redeemed OutOfRange], m)
    end.
Proof.
  destruct (m !! tokenContextEnc) as [[|c rest]|] eqn:E.
  - unfold Origin.pop_challenge. simpl. by rewrite E.
  - rewrite (pop_challenge_head _ _ _ _ E). simpl. rewrite E. simpl. rewrite E. simpl.
    rewrite lookup_insert_eq. unfold Origin.popped. destruct rest as [|c' rest]; simpl.
    + by rewrite delete_insert_eq.
    + done.
  - rewrite (pop_challenge_absent _ _ E). simpl. by rewrite E.
Qed.

Lemma maps_at_update sh l f : maps_at (update_maps sh l f) l = f (maps_at sh l).
Proof. unfold maps_at, update_maps. simpl. by rewrite lookup_insert_eq. Qed.

Lemma view_update sh c l f :
  well_formed sh -> clientState sh !! c = Some l ->
  view (update_maps sh l f) = <[c := f (maps_at sh l)]> (view sh).
Proof.
  intros [_ Hinj] Hc. apply map_eq. intros k. unfold view.
  rewrite lookup_insert, !lookup_fmap. simpl. case_decide as Hk.
  - subst k. rewrite Hc. simpl. by rewrite maps_at_update.
  - destruct (clientState sh !! k) as [l'|] eqn:E; [|done]. simpl. f_equal.
    unfold maps_at, update_maps. simpl. rewrite lookup_insert_ne; [done|].
    intros <-. by destruct Hk; apply (Hinj c k l).
Qed.

Lemma well_formed_update sh l f :
  well_formed sh -> well_formed (update_maps sh l f).
Proof.
  intros [Hm Hinj]. split; [|done]. intros c l' Hc. simpl.
  rewrite lookup_insert. case_decide; [eauto | by eapply Hm].
Qed.

(** One bookkeeping that runs with no other in between does what
    [Attester.update_state] does. *)
Lemma attest_alone sh c anon idx L :
  well_formed sh ->
  let r := run (attest_step c anon idx L) (replicate 5 0%nat) [At232] sh in
  let u := Attester.update_state (view sh) c anon idx L None in
  view r.2 = u.2
  /\ well_formed r.2
  /\ r.1 = [Attested match u.1 with Next _ => Allowed | _ => LimitExceeded end].
Proof.
  intros Hwf. pose proof Hwf as [Hm Hinj]. unfold Attester.update_state.
  assert (view sh !! c = maps_at sh <$> clientState sh !! c) as ->
    by (unfold view; apply lookup_fmap).
  simpl.
  destruct (clientState sh !! c) as [l|] eqn:Hc; simpl.
  - destruct (Attester.originIndices (maps_at sh l) !! anon) as [old|] eqn:Ho; simpl.
    + destruct (string_eqb old idx) eqn:Heq; simpl; [|done].
      rewrite !maps_at_update. simpl.
      destruct (_ <=? _); simpl; rewrite (view_update _ _ _ _ Hwf Hc);
        repeat split; try done; by apply well_formed_update.
    + rewrite (view_update _ c l _ (well_formed_update _ _ _ Hwf) Hc),
        maps_at_update, (view_update _ _ _ _ Hwf Hc), insert_insert_eq. simpl.
      repeat split; try done. by do 2 apply well_formed_update.
  - assert (fresh (dom (maps sh)) ∉ dom (maps sh)) as Hfresh by apply is_fresh.
    repeat split; try done.
    + unfold view. simpl. rewrite fmap_insert. unfold maps_at at 1. simpl.
      rewrite lookup_insert_eq. simpl. f_equal.
      apply map_fmap_ext. intros k l' Hk. unfold maps_at. simpl.
      rewrite lookup_insert_ne; [done|]. intros <-.
      by apply Hfresh, elem_of_dom, (Hm k).
    + simpl. intros k l'. rewrite lookup_insert. case_decide.
      * intros [= <-]. rewrite lookup_insert_eq. eauto.
      * intros Hk. rewrite lookup_insert_ne; [by eapply Hm|].
        intros <-. by apply Hfresh, elem_of_dom, (Hm k).
    + simpl. intros c1 c2 l'. rewrite !lookup_insert.
      case_decide as H1; case_decide as H2.
      * by subst.
      * intros [= <-] Hc2. destruct Hfresh. by apply elem_of_dom, (Hm c2).
      * intros Hc1 [= <-]. destruct Hfresh. by apply elem_of_dom, (Hm c1).
      * apply Hinj.
Qed.

(** Whatever the challenge and the context: two redemptions that take turns
    on a queue of one both take its challenge. *)
Lemma lockstep_double_pop m tokenContextEnc challenge :
  m !! tokenContextEnc = Some [challenge] ->
  run (redeem_step tokenContextEnc) Fixtures.lockstep [AtLookup; AtLookup] m =
    ([Redeemed (Took challenge); Redeemed (Took challenge)], delete tokenContextEnc m).
Proof.
  intros H. unfold Fixtures.lockstep. simpl.
  repeat (first [ rewrite H | rewrite lookup_insert_eq | rewrite lookup_delete_eq
                | rewrite insert_insert_eq | rewrite delete_insert_eq
                | rewrite delete_delete_eq ]; simpl).
  reflexivity.
Qed.

(** Whatever the pair and the count: two bookkeepings that take turns on a
    bound pair both pass the limit they would pass alone, and raise the
    count by one. *)
Lemma lockstep_lost_update sh c anon idx L l n :
  clientState sh !! c = Some l ->
  Attester.originIndices (maps_at sh l) !! anon = Some idx ->
  Attester.count_of (Attester.originCounts (maps_at sh l)) idx = n ->
  int_min <= n < int_max ->
  n + 1 < L ->
  let r := run (attest_step c anon idx L) Fixtures.lockstep [At232; At232] sh in
  r.1 = [Attested Allowed; Attested Allowed]
  /\ Attester.count_of (Attester.originCounts (maps_at r.2 l)) idx = n + 1.
Proof.
  intros Hc Ho Hn Hr HL. unfold Fixtures.lockstep.
  assert ((L <=? n + 1) = false) as Hlim by (apply Z.leb_gt; lia).
  simpl.
  repeat (first [ rewrite Hc | rewrite Ho | rewrite string_eqb_refl
                | rewrite maps_at_update | rewrite count_of_insert
                | rewrite Hn | rewrite int_add_1 by done | rewrite Hlim ]; simpl).
  done.
Qed.

End ConcurrentLemmas.

Module ConcurrentClaims.
Import Go HTTP Concurrent Fixtures ConcurrentLemmas.

(** C9. The read-check-update sequences are not atomic. With one challenge
    queued, two redemption attempts that take turns both take that
    challenge; and two requests of a bound pair that take turns both read
    the same count, so both are allowed and the count goes up by one. Run
    one after the other, the second redemption finds no challenge and the
    count goes up by two. *)
Theorem unlocked_maps_race :
  (Origin.challenges challenged_origin
     = {[noninteractive_context := [noninteractive_challenge]]}
   /\ (run (redeem_step noninteractive_context) lockstep [AtLookup; AtLookup]
         (Origin.challenges challenged_origin)).1
      = [Redeemed (Took noninteractive_challenge);
         Redeemed (Took noninteractive_challenge)]
   /\ (run (redeem_step noninteractive_context) one_by_one [AtLookup; AtLookup]
         (Origin.challenges challenged_origin)).1
      = [Redeemed (Took noninteractive_challenge); Redeemed NoChallenge])
  /\ (view bound_shared = Attester.clientState bound_attester
      /\ count_for bound_shared "default" "6931" = 0
      /\ (let r := run (attest_step "default" "6f31" "6931" 2) lockstep
                     [At232; At232] bound_shared in
          r.1 = [Attested Allowed; Attested Allowed]
          /\ count_for r.2 "default" "6931" = 1)
      /\ (let r := run (attest_step "default" "6f31" "6931" 2) one_by_one
                     [At232; At232] bound_shared in
          r.1 = [Attested Allowed; Attested LimitExceeded]
          /\ count_for r.2 "default" "6931" = 2)).
Proof. repeat split; vm_compute; reflexivity. Qed.

End ConcurrentClaims.

(** * More about the Attester *)

Module AttesterMore.
Import Go HTTP Attester Notions AttesterLemmas.

Lemma prepare_inv env req body tokenReq :
  prepare env req = Next (body, tokenReq) ->
  Method req = MethodPost
  /\ Header_Get (Header req) "Content-Type" = tokenRequestMediaType env
  /\ Values_Get (Query req) "issuer" <> ""
  /\ ReqBody req = Ok body
  /\ exists targetURI,
       composeURL env (Values_Get (Query req) "issuer") (tokenRequestURI env) = Ok targetURI
       /\ url_Parse env targetURI = Ok tt
       /\ tokenReq = {| cr_method := MethodPost; cr_url := targetURI;
                        cr_header := Header_Set ∅ "Content-Type" (tokenRequestMediaType env);
                        cr_body := body |}.
Proof.
  unfold prepare, reject_if, try, http_NewRequest. intros H.
  destruct (string_eqb (Method req) MethodPost) eqn:Hm; simpl in H; [|discriminate].
  destruct (string_eqb (Header_Get (Header req) "Content-Type") _) eqn:Hc;
    simpl in H; [|discriminate].
  destruct (string_eqb (Values_Get (Query req) "issuer") "") eqn:Hi;
    simpl in H; [discriminate|].
  destruct (ReqBody req) as [b|] eqn:Hb; simpl in H; [|discriminate].
  destruct (composeURL env _ _) as [uri|] eqn:Hu; simpl in H; [|discriminate].
  destruct (url_Parse env uri) as [[]|] eqn:Hp; simpl in H; [|discriminate].
  injection H as <- <-.
  apply string_eqb_true in Hm, Hc. apply string_eqb_false in Hi.
  repeat split; try done. by exists uri.
Qed.

Lemma verify_request_inv env req body ao ck rb cid :
  verify_request env req body = Next (ao, ck, rb, cid) ->
  cid = client_id_of req
  /\ parseStructuredBinaryHeader env req headerTokenOrigin = Ok ao
  /\ parseStructuredBinaryHeader env req headerClientKey = Ok ck
  /\ parseStructuredBinaryHeader env req headerRequestBlind = Ok rb.
Proof.
  unfold verify_request, reject_if, try, or_panic, client_id_of. intros H.
  destruct (negb _); simpl in H; [discriminate|].
  destruct (parseStructuredBinaryHeader env req headerTokenOrigin) as [ao'|];
    simpl in H; [|discriminate].
  destruct (parseStructuredBinaryHeader env req headerClientKey) as [ck'|];
    simpl in H; [|discriminate].
  destruct (parseStructuredBinaryHeader env req headerRequestBlind) as [rb'|];
    simpl in H; [|discriminate].
  destruct (Unmarshal env body) as [tr|]; simpl in H; [|discriminate].
  destruct (split_signature _) as [[r s]|]; simpl in H; [|discriminate].
  destruct (signed_message tr); simpl in H; [|discriminate].
  destruct (negb _); simpl in H; [discriminate|].
  by injection H as <- <- <- <-.
Qed.

Lemma read_response_rejects env answer ck rb :
  rejects_with 400 (read_response env answer ck rb).
Proof.
  unfold read_response.
  apply rejects_bind; [apply rejects_try|intros resp _].
  apply rejects_bind; [apply rejects_reject_if|intros _ _].
  apply rejects_bind; [by destruct (strconv_Atoi _)|intros L _].
  flow_checks. exact I.
Qed.

(** The bookkeeping touches one client only, never panics, and never takes
    a recorded index away or changes it. *)
Lemma update_state_other st c anon idx L err c' :
  c' <> c -> (update_state st c anon idx L err).2 !! c' = st !! c'.
Proof.
  intros Hne. unfold update_state.
  destruct (st !! c) as [cs|]; simpl; [|by rewrite lookup_insert_ne].
  destruct (originIndices cs !! anon); simpl; [|by rewrite lookup_insert_ne].
  destruct (negb _); [by destruct err|].
  destruct (_ <=? _); simpl; by rewrite lookup_insert_ne.
Qed.


Lemma update_state_keeps_index st c anon idx L err c0 anon0 idx0 :
  recorded_index {| clientState := st |} c0 anon0 = Some idx0 ->
  recorded_index {| clientState := (update_state st c anon idx L err).2 |} c0 anon0
    = Some idx0.
Proof.
  unfold recorded_index. simpl. intros H.
  destruct (decide (c0 = c)) as [->|Hne];
    [|by rewrite update_state_other].
  unfold update_state.
  destruct (st !! c) as [cs|] eqn:Hc; simpl in *; [|discriminate].
  destruct (originIndices cs !! anon) as [old|] eqn:Ho; simpl.
  - destruct (negb _); [by destruct err; simpl; rewrite Hc|].
    destruct (_ <=? _); simpl; by rewrite lookup_insert_eq.
  - rewrite lookup_insert_eq. simpl.
    destruct (decide (anon0 = anon)) as [->|Hna]; [congruence|].
    by rewrite lookup_insert_ne.
Qed.

Lemma accounted_or_unchanged env a issuer req :
  let h := handleAttestationRequest env a issuer req in
  after h = a
  \/ exists tokenReq c anon idx L sig,
       rate_limited_inputs env issuer req = Some (tokenReq, c, anon, idx, L, sig)
       /\ c = client_id_of req.
Proof.
  unfold handleAttestationRequest, rate_limited_inputs.
  destruct (prepare env req) as [[body tokenReq]|w|] eqn:E; simpl; [|by left..].
  destruct (BigEndian_Uint16 body) as [t|] eqn:Ht; simpl; [|by left].
  destruct (t =? RateLimitedTokenType) eqn:E3;
    [|destruct (t =? BasicPublicTokenType); by left].
  destruct (verify_request env req body) as [[[[ao ck] rb] cid]| |] eqn:Hv; simpl;
    [|by left..].
  destruct (read_response env _ ck rb) as [[[l bs] ie]| |]; simpl; [|by left..].
  right. apply verify_request_inv in Hv as [-> _]. by eexists _, _, _, _, _, _.
Qed.

(** X1. A request with another method than POST, another content type than
    the token-request media type, no [issuer] parameter, an unreadable body
    or an issuer name that gives no valid target URL is answered 400 whatever
    its token type; nothing is sent to the Issuer and the state stays as it
    was. *)
Theorem malformed_request_rejected env a issuer req :
  Method req <> MethodPost
  \/ Header_Get (Header req) "Content-Type" <> tokenRequestMediaType env
  \/ Values_Get (Query req) "issuer" = ""
  \/ (exists e, ReqBody req = Err e)
  \/ (exists e, composeURL env (Values_Get (Query req) "issuer") (tokenRequestURI env)
                = Err e)
  \/ (exists targetURI e,
        composeURL env (Values_Get (Query req) "issuer") (tokenRequestURI env)
          = Ok targetURI
        /\ url_Parse env targetURI = Err e) ->
  let h := handleAttestationRequest env a issuer req in
  (exists w, response h = Some w /\ status_of w = 400)
  /\ forwarded h = [] /\ after h = a.
Proof.
  intros Hbad. unfold handleAttestationRequest.
  pose proof (prepare_rejects env req) as Hp.
  destruct (prepare env req) as [[body tokenReq]|w|] eqn:E; simpl in Hp.
  - exfalso. apply prepare_inv in E as (Hm & Hc & Hi & Hb & uri & Hu & Hparse & _).
    destruct Hbad as [?|[?|[?|[[e He]|[[e He]|(u & e & Hu' & He)]]]]]; try done;
      congruence.
  - simpl. eauto.
  - done.
Qed.

(** X2. A request that passes the format checks with a body of fewer than two
    bytes makes the handler panic at line 107: no response is written, nothing
    is sent to the Issuer and the state stays as it was. *)
Theorem short_body_panics env a issuer req body tokenReq :
  prepare env req = Next (body, tokenReq) ->
  (length body < 2)%nat ->
  let h := handleAttestationRequest env a issuer req in
  response h = None /\ forwarded h = [] /\ after h = a.
Proof.
  intros Hp Hlen. unfold handleAttestationRequest. rewrite Hp.
  destruct body as [|b0 [|b1 body]]; simpl in *; try done. lia.
Qed.

(** X3. A rate-limited request that lacks one of the headers
    [sec-token-origin], [sec-token-client] and [sec-token-request-blind] is
    answered 400 without being sent to the Issuer, the state as it was. *)
Theorem missing_header_rejected env a issuer req body tokenReq header :
  prepare env req = Next (body, tokenReq) ->
  BigEndian_Uint16 body = Some RateLimitedTokenType ->
  header ∈ [headerTokenOrigin; headerClientKey; headerRequestBlind] ->
  Header_Get (Header req) header = "" ->
  let h := handleAttestationRequest env a issuer req in
  (exists w, response h = Some w /\ status_of w = 400)
  /\ forwarded h = [] /\ after h = a.
Proof.
  intros Hp Ht Hin Hmiss. unfold handleAttestationRequest. rewrite Hp, Ht. simpl.
  assert (exists e, parseStructuredBinaryHeader env req header = Err e) as [e He].
  { unfold parseStructuredBinaryHeader. rewrite Hmiss, string_eqb_refl. eauto. }
  assert (exists w, verify_request env req body = Reply w /\ status_of w = 400)
    as (w & -> & Hw); [|simpl; eauto].
  unfold verify_request.
  destruct (negb _); simpl; [eexists; split; reflexivity|].
  repeat (apply elem_of_cons in Hin as [->|Hin]);
    [| | |by apply elem_of_nil in Hin].
  - rewrite He. simpl. eexists; split; reflexivity.
  - destruct (parseStructuredBinaryHeader env req headerTokenOrigin); simpl;
      [|eexists; split; reflexivity].
    rewrite He. simpl. eexists; split; reflexivity.
  - destruct (parseStructuredBinaryHeader env req headerTokenOrigin); simpl;
      [|eexists; split; reflexivity].
    destruct (parseStructuredBinaryHeader env req headerClientKey); simpl;
      [|eexists; split; reflexivity].
    rewrite He. simpl. eexists; split; reflexivity.
Qed.

(** X4. Whatever the request, the handler sends at most one request to the
    Issuer, and only for a body tagged Rate-Limited or Basic: a POST to the
    URL composed from the [issuer] parameter, with the token-request content
    type as its only header and the client's body, byte for byte. *)
Theorem forwards_once_unchanged env a issuer req :
  let h := handleAttestationRequest env a issuer req in
  forwarded h = []
  \/ exists body targetURI,
       ReqBody req = Ok body
       /\ (BigEndian_Uint16 body = Some RateLimitedTokenType
           \/ BigEndian_Uint16 body = Some BasicPublicTokenType)
       /\ composeURL env (Values_Get (Query req) "issuer") (tokenRequestURI env)
          = Ok targetURI
       /\ forwarded h =
            [{| cr_method := MethodPost; cr_url := targetURI;
                cr_header := Header_Set ∅ "Content-Type" (tokenRequestMediaType env);
                cr_body := body |}].
Proof.
  unfold handleAttestationRequest.
  destruct (prepare env req) as [[body tokenReq]|w|] eqn:E; simpl; [|by left..].
  apply prepare_inv in E as (_ & _ & _ & Hb & uri & Hu & _ & ->).
  destruct (BigEndian_Uint16 body) as [t|] eqn:Ht; simpl; [|by left].
  destruct (t =? RateLimitedTokenType) eqn:E3.
  - apply Z.eqb_eq in E3. subst t.
    destruct (verify_request env req body) as [[[[ao ck] rb] cid]| |]; simpl;
      [|by left..].
    right. exists body, uri. repeat split; try done; [by left|].
    destruct (read_response env _ ck rb) as [[[l bs] ie]| |]; simpl; try done.
    by destruct (update_state _ _ _ _ _ _).
  - destruct (t =? BasicPublicTokenType) eqn:E2; simpl; [|by left].
    apply Z.eqb_eq in E2. subst t. right. exists body, uri.
    repeat split; try done. by right.
Qed.

(** X5. When a verified rate-limited request has been sent on and the Issuer
    cannot be reached, or its response has no limit header, a limit that is
    no number, a body that cannot be read or an origin header that does not
    decode, or the index cannot be computed from it, the client gets 400; the
    request was sent once and the state stays as it was. *)
Theorem issuer_failure_rejected env a issuer req body tokenReq ao ck rb cid :
  prepare env req = Next (body, tokenReq) ->
  BigEndian_Uint16 body = Some RateLimitedTokenType ->
  verify_request env req body = Next (ao, ck, rb, cid) ->
  (exists e, issuer tokenReq = Err e)
  \/ (exists resp, issuer tokenReq = Ok resp
        /\ (Header_Get (resp_header resp) headerTokenLimit = ""
            \/ strconv_Atoi (Header_Get (resp_header resp) headerTokenLimit) = None
            \/ (exists e, resp_body resp = Err e)
            \/ (exists e, unmarshalStructuredBinary env
                            (Header_Get (resp_header resp) headerTokenOrigin) = Err e)
            \/ (exists blinded e,
                  unmarshalStructuredBinary env
                    (Header_Get (resp_header resp) headerTokenOrigin) = Ok blinded
                  /\ FinalizeIndex env ck rb blinded = Err e))) ->
  let h := handleAttestationRequest env a issuer req in
  (exists w, response h = Some w /\ status_of w = 400)
  /\ forwarded h = [tokenReq] /\ after h = a.
Proof.
  intros Hp Ht Hv Hbad. unfold handleAttestationRequest. rewrite Hp, Ht. simpl.
  rewrite Hv.
  pose proof (read_response_rejects env (issuer tokenReq) ck rb) as Hr.
  destruct (read_response env (issuer tokenReq) ck rb) as [[[l bs] ie]|w|] eqn:E;
    simpl in Hr; [|simpl; eauto|done].
  exfalso. unfold read_response, reject_if, try in E.
  destruct Hbad as [[e He]|(resp & He & Hbad)]; rewrite He in E; simpl in E;
    [discriminate|].
  destruct (string_eqb _ _) eqn:Hl; simpl in E; [discriminate|].
  apply string_eqb_false in Hl.
  destruct (strconv_Atoi _) eqn:Hn; simpl in E; [|discriminate].
  destruct (resp_body resp) eqn:Hb; simpl in E; [|discriminate].
  destruct (unmarshalStructuredBinary env _) as [blinded|] eqn:Hu; simpl in E;
    [|discriminate].
  destruct (FinalizeIndex env ck rb blinded) eqn:Hf; simpl in E; [|discriminate].
  destruct Hbad as [?|[?|[[e ?]|[[e ?]|(bl & e & Hu' & ?)]]]]; try congruence.
Qed.

(** X6. The state changes only through the bookkeeping: a request that is
    rejected before it, a Basic request and a request of unknown type leave
    the Attester as it was. *)
Theorem state_changes_only_when_accounted env a issuer req :
  let h := handleAttestationRequest env a issuer req in
  after h = a
  \/ exists tokenReq c anon idx L sig,
       rate_limited_inputs env issuer req = Some (tokenReq, c, anon, idx, L, sig)
       /\ c = client_id_of req.
Proof. apply accounted_or_unchanged. Qed.

(** X7. A request touches the record of its own client only: the state of
    every other client is the same after as before. *)
Theorem other_clients_untouched env a issuer req c' :
  c' <> client_id_of req ->
  let h := handleAttestationRequest env a issuer req in
  clientState (after h) !! c' = clientState a !! c'.
Proof.
  intros Hne h. subst h.
  destruct (accounted_or_unchanged env a issuer req)
    as [->|(tokenReq & c & anon & idx & L & sig & Hin & ->)]; [done|].
  rewrite (handle_rate_limited _ _ _ _ _ _ _ _ _ _ Hin). simpl.
  by apply update_state_other.
Qed.

(** X8. An index recorded for a (client, origin) pair stays: no request
    removes it or puts another index in its place. *)
Theorem recorded_index_stays env a issuer req c anon idx :
  recorded_index a c anon = Some idx ->
  recorded_index (after (handleAttestationRequest env a issuer req)) c anon = Some idx.
Proof.
  intros Hrec.
  destruct (accounted_or_unchanged env a issuer req)
    as [->|(tokenReq & c' & anon' & idx' & L & sig & Hin & _)]; [done|].
  rewrite (handle_rate_limited _ _ _ _ _ _ _ _ _ _ Hin). simpl.
  destruct a as [st]. by apply update_state_keeps_index.
Qed.

(** X9. A request of a pair that is bound to its index, with [n] counted so
    far, is sent to the Issuer first and counted whatever the outcome: the
    count becomes [n + 1], and the answer is 429 when the limit of this very
    response is at most [n + 1] and the signed bytes otherwise. *)
Theorem accounted_before_limited env a issuer req tokenReq c anon idx L sig n :
  rate_limited_inputs env issuer req = Some (tokenReq, c, anon, idx, L, sig) ->
  tracked a c anon idx n ->
  int_min <= n < int_max ->
  let h := handleAttestationRequest env a issuer req in
  forwarded h = [tokenReq]
  /\ tracked (after h) c anon idx (n + 1)
  /\ response h =
       Some (if L <=? n + 1
             then Error new_writer "Limit exceeded" StatusTooManyRequests
             else write_token env sig).
Proof.
  intros Hin Ht Hn h. subst h. destruct a as [st].
  destruct (update_state_match st c anon idx L None n Ht Hn) as (st' & Hup & Ht').
  rewrite (handle_rate_limited _ _ _ _ _ _ _ _ _ _ Hin). simpl. rewrite Hup. simpl.
  repeat split; try done. by destruct (L <=? n + 1).
Qed.

(** X10. The count of a bound pair is not moved by requests of other
    clients, nor by requests of the same client for another origin whose keys
    (encoded origin and encoded index) are not the index key of the pair. *)
Theorem other_pairs_do_not_count env a issuer req tokenReq c anon idx n
    c' anon' idx' L sig :
  tracked a c anon idx n ->
  rate_limited_inputs env issuer req = Some (tokenReq, c', anon', idx', L, sig) ->
  c' <> c \/ (anon' <> anon /\ anon' <> idx /\ idx' <> idx) ->
  tracked (after (handleAttestationRequest env a issuer req)) c anon idx n.
Proof.
  intros (cs & Hc & Hi & Hn) Hin Hother.
  rewrite (handle_rate_limited _ _ _ _ _ _ _ _ _ _ Hin). simpl.
  unfold tracked. simpl.
  destruct (decide (c' = c)) as [->|Hne];
    [|exists cs; by rewrite update_state_other].
  destruct Hother as [?|(Ha & Hai & Hii)]; [done|].
  unfold update_state. rewrite Hc.
  destruct (originIndices cs !! anon') as [old|] eqn:Ho; simpl.
  - destruct (negb _); simpl; [by exists cs|].
    destruct (_ <=? _); simpl; rewrite lookup_insert_eq; eexists; (split; [done|]);
      simpl; by rewrite count_of_insert_ne.
  - rewrite lookup_insert_eq. eexists; split; [done|]. simpl.
    by rewrite lookup_insert_ne, count_of_insert_ne.
Qed.


(** X21. A Basic request for which the Issuer cannot be reached, or whose
    response body cannot be read, is answered 400; it was sent once and the
    state stays as it was. No header of the response is asked for. *)
Theorem basic_issuer_failure_rejected env a issuer req body tokenReq :
  prepare env req = Next (body, tokenReq) ->
  BigEndian_Uint16 body = Some BasicPublicTokenType ->
  (exists e, issuer tokenReq = Err e)
  \/ (exists hdr e, issuer tokenReq = Ok {| resp_header := hdr; resp_body := Err e |}) ->
  let h := handleAttestationRequest env a issuer req in
  (exists w, response h = Some w /\ status_of w = 400)
  /\ forwarded h = [tokenReq] /\ after h = a.
Proof.
  intros Hp Ht Hbad. unfold handleAttestationRequest. rewrite Hp, Ht. simpl.
  destruct Hbad as [[e ->]|(hdr & e & ->)]; simpl; eauto.
Qed.

(** X22. The first request of a pair is allowed whatever limit the Issuer
    advertises, be it 0 or negative: when the client is unknown, or known
    without a record for the origin, the signed bytes are returned, the index
    is recorded for the pair and 1 is counted under the origin's key. *)
Theorem first_request_allowed_at_any_limit env a issuer req tokenReq c anon idx L sig :
  rate_limited_inputs env issuer req = Some (tokenReq, c, anon, idx, L, sig) ->
  recorded_index a c anon = None ->
  let h := handleAttestationRequest env a issuer req in
  response h = Some (write_token env sig)
  /\ recorded_index (after h) c anon = Some idx
  /\ exists cs, clientState (after h) !! c = Some cs
               /\ count_of (originCounts cs) anon = 1.
Proof.
  intros Hin Hrec h. subst h.
  rewrite (handle_rate_limited _ _ _ _ _ _ _ _ _ _ Hin).
  unfold recorded_index, update_state in *. simpl.
  destruct (clientState a !! c) as [cs|] eqn:Hc; simpl in *.
  - rewrite Hrec. simpl. rewrite lookup_insert_eq. simpl.
    rewrite lookup_insert_eq. repeat split; try done.
    eexists. split; [done|]. simpl. by rewrite count_of_insert.
  - rewrite lookup_insert_eq. simpl. rewrite lookup_singleton_eq.
    repeat split; try done. eexists. split; [done|]. simpl.
    unfold count_of. by rewrite lookup_singleton_eq.
Qed.

End AttesterMore.

(** * More about the Origin *)

Module OriginMore.
Import Go HTTP Origin Notions AttesterLemmas OriginLemmas.

Lemma splitAfter_go_nonempty fuel sep : forall cur s,
  splitAfter_go fuel sep cur s <> [].
Proof.
  induction fuel as [|fuel IH]; intros cur s; simpl; [done|].
  destruct (strings_HasPrefix s sep); [done|].
  destruct s; [done | apply IH].
Qed.

Lemma SplitAfter_second s sep :
  strings_HasPrefix s sep = true -> is_Some (strings_SplitAfter s sep !! 1%nat).
Proof.
  intros H. unfold strings_SplitAfter. cbn [splitAfter_go]. rewrite H.
  pose proof (splitAfter_go_nonempty (String.length s) sep EmptyString
                (drop_string (String.length sep) s)) as Hne.
  destruct (splitAfter_go _ _ _ _); [done | by eexists].
Qed.

(** The parse of the credential ends in a token or in 400; it never panics. *)
Lemma parse_token_rejects env req : rejects_with 400 (parse_token env req).
Proof.
  unfold parse_token.
  destruct (strings_HasPrefix _ tokenPrefix) eqn:Hp; simpl; [|done].
  destruct (SplitAfter_second _ _ Hp) as [enc ->]. simpl.
  destruct (base64_DecodeString env enc) as [data|]; simpl; [|done].
  by destruct (UnmarshalToken env data).
Qed.

Lemma outstanding_delete m contextEnc :
  (outstanding (delete contextEnc m) + length (queue_of m contextEnc)
   = outstanding m)%nat.
Proof.
  unfold outstanding, queue_of. destruct (m !! contextEnc) as [q|] eqn:E; simpl.
  - rewrite <- (map_to_list_delete m contextEnc q E). simpl.
    apply Nat.add_comm.
  - rewrite delete_id by done. lia.
Qed.

Lemma outstanding_insert m contextEnc q :
  (outstanding (<[contextEnc := q]> m) + length (queue_of m contextEnc)
   = outstanding m + length q)%nat.
Proof.
  rewrite <- (outstanding_delete m contextEnc), <- (insert_delete_eq m).
  unfold outstanding at 1.
  rewrite map_to_list_insert by apply lookup_delete_eq.
  change (sum_list (length <$> ((contextEnc, q) :: map_to_list (delete contextEnc m)).*2))
    with (length q + outstanding (delete contextEnc m))%nat.
  lia.
Qed.



Lemma popped_outstanding m contextEnc c rest :
  m !! contextEnc = Some (c :: rest) ->
  S (outstanding (popped m contextEnc rest)) = outstanding m.
Proof.
  intros H. unfold popped. destruct rest as [|c' rest].
  - pose proof (outstanding_delete m contextEnc) as Hd.
    unfold queue_of in Hd. rewrite H in Hd. simpl in Hd. lia.
  - pose proof (outstanding_insert m contextEnc (c' :: rest)) as Hi.
    unfold queue_of in Hi. rewrite H in Hi. simpl in Hi. lia.
Qed.



Lemma Atoi_empty : strconv_Atoi "" = None.
Proof. reflexivity. Qed.

Lemma basic_requested_asks req : basic_requested req = asks_basic req.
Proof.
  unfold basic_requested, asks_basic, signals.
  destruct (string_eqb (Header_Get (Header req) headerTokenType) "") eqn:Hh;
    destruct (string_eqb (Values_Get (Query req) "type") "") eqn:Hq; simpl; try done.
  apply string_eqb_true in Hh, Hq. by rewrite Hh, Hq, Atoi_empty.
Qed.

Lemma verify_token_passes env o challenge token :
  verify_token env o challenge token = Next tt <-> verifies env o challenge token.
Proof.
  unfold verify_token, verifies, validation_key, or_panic.
  destruct (if TokenType challenge =? BasicPublicTokenType
            then basicValidationKey o else rateLimitedTokenKey o) as [k|]; simpl.
  - destruct (rsa_VerifyPSS env k _ _) eqn:E.
    + split; [done|]. intros (k' & [= <-] & Hv). congruence.
    + split; [eauto | done].
  - split; [done|]. by intros (k' & ? & _).
Qed.

Lemma verify_token_same_keys env o m challenge token :
  verify_token env (with_challenges o m) challenge token
  = verify_token env o challenge token.
Proof. reflexivity. Qed.

(** The handler after a pop that found the head of a queue. *)
Lemma handle_popped env o rnd upstream req token c rest :
  parse_token env req = Next token ->
  challenges o !! hex_EncodeToString (Context token) = Some (c :: rest) ->
  let o' := with_challenges o
              (popped (challenges o) (hex_EncodeToString (Context token)) rest) in
  handleRequest env o rnd upstream req =
    match verify_token env o c token with
    | Reply w => finish (Reply w) o' false
    | Panic => finish Panic o' false
    | Next _ => finish (fetch_resource env upstream) o' true
    end.
Proof.
  intros Hp Hq. by rewrite (handle_redeem _ _ _ _ _ _ Hp), (pop_challenge_head _ _ _ _ Hq).
Qed.

Lemma granted_iff_verifies env o rnd upstream req token c rest :
  parse_token env req = Next token ->
  challenges o !! hex_EncodeToString (Context token) = Some (c :: rest) ->
  granted (handleRequest env o rnd upstream req) = true <-> verifies env o c token.
Proof.
  intros Hp Hq. rewrite (handle_popped _ _ _ _ _ _ _ _ Hp Hq), <- verify_token_passes.
  destruct (verify_token env o c token) as [[]| |]; simpl; split; done.
Qed.


(** X13. The challenge is of type Basic exactly when the type header is the
    number 2, or is no number while the [type] parameter is the number 2; it
    is Rate-Limited otherwise. The key advertised with it is the one of its
    type. *)
Theorem advertised_key_matches_type env o req rnd :
  let challenge := (new_challenge env o req rnd).1 in
  let tokenKey := (CreateChallenge env o req rnd).1.2 in
  IssuerName challenge = issuerName o
  /\ (TokenType challenge = BasicPublicTokenType <-> asks_basic req = true)
  /\ (TokenType challenge = RateLimitedTokenType <-> asks_basic req = false)
  /\ tokenKey = base64_EncodeToString env
                  (if TokenType challenge =? BasicPublicTokenType
                   then basicTokenKeyEnc o else rateLimitedTokenKeyEnc o).
Proof.
  intros challenge tokenKey. subst challenge tokenKey.
  rewrite CreateChallenge_spec. unfold new_challenge. simpl.
  rewrite basic_requested_asks.
  destruct (asks_basic req); simpl; repeat split; try done.
Qed.

(** X14. A request with credentials either yields a token or is answered
    400 with no challenge taken and nothing granted; reading the credential
    never panics, whatever the header holds. *)
Theorem credentials_parse_or_400 env o rnd upstream req :
  Header_Get (Header req) "Authorization" <> "" ->
  let h := handleRequest env o rnd upstream req in
  (exists token, parse_token env req = Next token)
  \/ ((exists w, response h = Some w /\ status_of w = 400)
      /\ after h = o /\ granted h = false).
Proof.
  intros Ha h. subst h. unfold handleRequest.
  apply string_eqb_false in Ha. rewrite Ha.
  pose proof (parse_token_rejects env req) as Hr.
  destruct (parse_token env req) as [token|w|]; simpl in Hr; [by left; eauto| |done].
  right. simpl. eauto.
Qed.

(** X15. Challenges of one context are redeemed in the order they were
    issued. After a challenge is issued, a token of its context is checked
    against the oldest challenge queued for that context: against the new
    one, leaving the context as it was without it, when none was queued, and
    against the head of the queue, leaving the new one at the end, when
    some were. *)
Theorem issued_then_redeemed_in_turn env o req rnd rnd' upstream req' token :
  let challenge := (new_challenge env o req rnd).1 in
  let o' := (CreateChallenge env o req rnd).2 in
  parse_token env req' = Next token ->
  hex_EncodeToString (Context token) = context_of env challenge ->
  let h := handleRequest env o' rnd' upstream req' in
  match queue_of (challenges o) (context_of env challenge) with
  | [] =>
      challenges (after h) = delete (context_of env challenge) (challenges o)
      /\ (granted h = true <-> verifies env o challenge token)
  | c :: rest =>
      queue_of (challenges (after h)) (context_of env challenge)
        = (rest ++ [challenge])%list
      /\ (granted h = true <-> verifies env o c token)
  end.
Proof.
  intros challenge o' Hp Hctx h. subst h o'.
  rewrite CreateChallenge_spec. fold challenge. simpl.
  set (ctx := context_of env challenge) in *.
  set (o1 := with_challenges o (enqueue (challenges o) ctx challenge)).
  assert (challenges o1 !! hex_EncodeToString (Context token)
          = Some (queue_of (challenges o) ctx ++ [challenge])%list) as Hq.
  { rewrite Hctx. simpl. rewrite enqueue_appends. apply lookup_insert_eq. }
  destruct (queue_of (challenges o) ctx) as [|c rest] eqn:Eq; simpl in Hq.
  - split; [|by apply (granted_iff_verifies env o1 rnd' upstream req' token _ _ Hp Hq)].
    rewrite (handle_popped env o1 rnd' upstream req' token _ _ Hp Hq). rewrite Hctx.
    assert (popped (challenges o1) ctx [] = delete ctx (challenges o)) as Hd.
    { simpl. by rewrite enqueue_appends, delete_insert_eq. }
    by destruct (verify_token env o1 challenge token); simpl; rewrite <- Hd.
  - split; [|by apply (granted_iff_verifies env o1 rnd' upstream req' token _ _ Hp Hq)].
    rewrite (handle_popped env o1 rnd' upstream req' token _ _ Hp Hq). rewrite Hctx.
    assert (queue_of (popped (challenges o1) ctx (rest ++ [challenge])) ctx
            = (rest ++ [challenge])%list) as Hd.
    { unfold queue_of. rewrite popped_lookup. by destruct rest. }
    by destruct (verify_token env o1 c token).
Qed.

(** X16. A token that verifies against the oldest challenge of its context
    is granted: the challenge is taken and the protected resource is asked
    for. The body the resource server returns is written back with status
    200; when the server cannot be reached or its body cannot be read the
    answer is 500, and the challenge stays taken. *)
Theorem verified_token_fetches_resource env o rnd upstream req token c rest :
  parse_token env req = Next token ->
  challenges o !! hex_EncodeToString (Context token) = Some (c :: rest) ->
  verifies env o c token ->
  url_Parse env testResource = Ok tt ->
  let h := handleRequest env o rnd upstream req in
  granted h = true
  /\ challenges (after h) = popped (challenges o) (hex_EncodeToString (Context token)) rest
  /\ match upstream {| cr_method := MethodGet; cr_url := testResource;
                       cr_header := ∅; cr_body := [] |} with
     | Ok {| resp_body := Ok body |} =>
         exists w, response h = Some w /\ status_of w = 200 /\ w_body w = body
     | _ => exists w, response h = Some w /\ status_of w = StatusInternalServerError
     end.
Proof.
  intros Hp Hq Hv Hu h. subst h.
  rewrite (handle_popped _ _ _ _ _ _ _ _ Hp Hq).
  apply verify_token_passes in Hv. rewrite Hv. simpl.
  repeat split; try done.
  unfold fetch_resource. rewrite Hu. simpl.
  destruct (upstream _) as [[hdr [body|e]]|e]; simpl; eauto.
Qed.

(** X17. When the Origin holds no validation key for the type of the oldest
    challenge, the redemption panics at the verification: no response is
    written and nothing is granted, and the challenge is already taken. *)
Theorem missing_key_panics_after_pop env o rnd upstream req token c rest :
  parse_token env req = Next token ->
  challenges o !! hex_EncodeToString (Context token) = Some (c :: rest) ->
  validation_key o c = None ->
  let h := handleRequest env o rnd upstream req in
  response h = None /\ granted h = false
  /\ challenges (after h) = popped (challenges o) (hex_EncodeToString (Context token)) rest.
Proof.
  intros Hp Hq Hk h. subst h.
  rewrite (handle_popped _ _ _ _ _ _ _ _ Hp Hq).
  unfold verify_token. unfold validation_key in Hk. by rewrite Hk.
Qed.

(** X18. A request with credentials takes at most one challenge off the
    queues and adds none: either the Origin is as it was, or exactly one
    challenge fewer is outstanding. *)
Theorem redemption_takes_at_most_one env o rnd upstream req :
  Header_Get (Header req) "Authorization" <> "" ->
  let h := handleRequest env o rnd upstream req in
  after h = o
  \/ (after h = with_challenges o (challenges (after h))
      /\ S (outstanding (challenges (after h))) = outstanding (challenges o)).
Proof.
  intros Ha h. subst h. unfold handleRequest.
  apply string_eqb_false in Ha. rewrite Ha.
  destruct (parse_token env req) as [token| |]; simpl; [|by left..].
  destruct (challenges o !! hex_EncodeToString (Context token)) as [[|c rest]|] eqn:Hq.
  - unfold pop_challenge. rewrite Hq. simpl. by left.
  - rewrite (pop_challenge_head _ _ _ _ Hq). right.
    pose proof (popped_outstanding _ _ _ _ Hq) as Hn.
    by destruct (verify_token env o c token).
  - rewrite (pop_challenge_absent _ _ Hq). by left.
Qed.

End OriginMore.

(** * The start-up of the Origin *)

Module StartupMore.
Import Go HTTP Startup AttesterLemmas.

Lemma last_of_type_cons t entry rest :
  last_of_type t (entry :: rest) =
    match last_of_type t rest with
    | Some e => Some e
    | None => if TokenType entry =? t then Some entry else None
    end.
Proof.
  unfold last_of_type. simpl. destruct (TokenType entry =? t); [|by destruct (last _)].
  rewrite last_cons. by destruct (last _).
Qed.

Lemma load_keys_last env entries : forall keys out,
  load_keys env entries keys = Ok out ->
  loaded env entries Origin.RateLimitedTokenType
    (rateLimitedTokenKeyEnc keys) (rateLimitedTokenKey keys)
    (rateLimitedTokenKeyEnc out) (rateLimitedTokenKey out)
  /\ loaded env entries Origin.BasicPublicTokenType
       (basicValidationKeyEnc keys) (basicValidationKey keys)
       (basicValidationKeyEnc out) (basicValidationKey out).
Proof.
  unfold loaded.
  induction entries as [|entry rest IH]; intros keys out H; simpl in H.
  - injection H as <-. by split.
  - rewrite !last_of_type_cons.
    destruct (TokenType entry =? Origin.BasicPublicTokenType) eqn:E2.
    + apply Z.eqb_eq in E2.
      assert ((TokenType entry =? Origin.RateLimitedTokenType) = false) as ->
        by (rewrite E2; reflexivity).
      destruct (base64_DecodeString env _) as [enc|] eqn:Hd; [|discriminate].
      destruct (UnmarshalTokenKey env enc) as [k|] eqn:Hk; [|discriminate].
      destruct (IH _ _ H) as [Hr Hb]. simpl in Hr, Hb. split.
      * by destruct (last_of_type Origin.RateLimitedTokenType rest).
      * destruct (last_of_type Origin.BasicPublicTokenType rest); [done|].
        destruct Hb as [-> ->]. by exists k.
    + destruct (TokenType entry =? Origin.RateLimitedTokenType) eqn:E3.
      * destruct (base64_DecodeString env _) as [enc|] eqn:Hd; [|discriminate].
        destruct (UnmarshalTokenKey env enc) as [k|] eqn:Hk; [|discriminate].
        destruct (IH _ _ H) as [Hr Hb]. simpl in Hr, Hb. split.
        -- destruct (last_of_type Origin.RateLimitedTokenType rest); [done|].
           destruct Hr as [-> ->]. by exists k.
        -- by destruct (last_of_type Origin.BasicPublicTokenType rest).
      * destruct (IH _ _ H) as [Hr Hb]. split.
        -- by destruct (last_of_type Origin.RateLimitedTokenType rest).
        -- by destruct (last_of_type Origin.BasicPublicTokenType rest).
Qed.

Lemma load_keys_bad_entry env entries entry : forall keys,
  entry ∈ entries ->
  TokenType entry = Origin.BasicPublicTokenType
  \/ TokenType entry = Origin.RateLimitedTokenType ->
  (forall enc k, ~ decodes_to env entry enc k) ->
  exists msg, load_keys env entries keys = Err msg.
Proof.
  induction entries as [|e rest IH]; intros keys Hin Ht Hbad;
    [by apply elem_of_nil in Hin|].
  apply elem_of_cons in Hin as [<-|Hin]; simpl.
  - assert (forall enc k, base64_DecodeString env (TokenKey_TokenKey entry) = Ok enc ->
                          UnmarshalTokenKey env enc = Ok k -> False) as Hno
      by (intros enc k ? ?; by apply (Hbad enc k)).
    destruct Ht as [-> | ->]; simpl;
      (destruct (base64_DecodeString env _) as [enc|]; [|by eauto];
       destruct (UnmarshalTokenKey env enc) as [k|] eqn:Hk; [|by eauto];
       by destruct (Hno enc k)).
  - destruct (TokenType e =? Origin.BasicPublicTokenType);
      [|destruct (TokenType e =? Origin.RateLimitedTokenType)];
      try (destruct (base64_DecodeString env _) as [enc|]; [|by eauto];
           destruct (UnmarshalTokenKey env enc) as [k|]; [|by eauto]);
      by apply IH.
Qed.

(** X19. The Origin reaches its listener only when certificate, key, issuer
    and origin name are all given. It then listens on the given port with no
    challenge outstanding, and for each token type its validation key is the
    decoding of the last entry of that type in the Issuer's configuration;
    with no entry of a type it has no key for that type. *)
Theorem origin_starts_with_last_keys env c addr certFile keyFile pattern o :
  startOrigin env c = Serving addr certFile keyFile pattern o ->
  (cert c <> "" /\ key c <> "" /\ issuer c <> "" /\ name c <> "")
  /\ (addr = ":" ++ port c /\ certFile = cert c /\ keyFile = key c /\ pattern = "/")
  /\ Origin.challenges o = ∅
  /\ (Origin.issuerName o = issuer c /\ Origin.originName o = name c
      /\ Origin.additionalOriginInfo o = origin_info c)
  /\ exists issuerConfig,
       fetchIssuerConfig env (issuer c) = Ok issuerConfig
       /\ loaded env (TokenKeys issuerConfig) Origin.RateLimitedTokenType [] None
            (Origin.rateLimitedTokenKeyEnc o) (Origin.rateLimitedTokenKey o)
       /\ loaded env (TokenKeys issuerConfig) Origin.BasicPublicTokenType [] None
            (Origin.basicTokenKeyEnc o) (Origin.basicValidationKey o).
Proof.
  unfold startOrigin. intros H.
  destruct (string_eqb (cert c) "") eqn:H1; [discriminate|].
  destruct (string_eqb (key c) "") eqn:H2; [discriminate|].
  destruct (string_eqb (issuer c) "") eqn:H3; [discriminate|].
  destruct (string_eqb (name c) "") eqn:H4; [discriminate|].
  apply string_eqb_false in H1, H2, H3, H4.
  destruct (fetchIssuerConfig env (issuer c)) as [config|]; [|discriminate].
  destruct (load_keys env (TokenKeys config) no_keys) as [keys|] eqn:Hl; [|discriminate].
  destruct (composeURL env _ _) as [uri|]; [|discriminate].
  destruct (fetchIssuerNameKey env uri) as [nk|]; [|discriminate].
  injection H as <- <- <- <- <-.
  destruct (load_keys_last _ _ _ _ Hl) as [Hr Hb].
  repeat split; try done. by exists config.
Qed.

(** X20. When an entry of the Issuer's configuration for the Basic or the
    Rate-Limited type does not decode to a key, the Origin exits at start-up
    and never listens, whatever the other entries are. *)
Theorem origin_exits_on_bad_key env c issuerConfig entry :
  cert c <> "" -> key c <> "" -> issuer c <> "" -> name c <> "" ->
  fetchIssuerConfig env (issuer c) = Ok issuerConfig ->
  entry ∈ TokenKeys issuerConfig ->
  TokenType entry = Origin.BasicPublicTokenType
  \/ TokenType entry = Origin.RateLimitedTokenType ->
  (forall enc k, ~ decodes_to env entry enc k) ->
  exists msg, startOrigin env c = Fatal msg.
Proof.
  intros H1 H2 H3 H4 Hf Hin Ht Hbad. unfold startOrigin.
  apply string_eqb_false in H1, H2, H3, H4. rewrite H1, H2, H3, H4, Hf.
  destruct (load_keys_bad_entry env _ entry no_keys Hin Ht Hbad) as [msg ->].
  eauto.
Qed.

End StartupMore.

(** ** The further properties on concrete requests *)

Module ExtraRuns.
Import Go HTTP Fixtures MoreFixtures Notions.

Section OnAttester.
Import Attester AttesterMore.

Lemma malformed_request_rejected_witness :
  let h := handleAttestationRequest attester_env startAttester
             (issuer "2" "i1" [x2a]) get_request in
  (exists w, response h = Some w /\ status_of w = 400)
  /\ forwarded h = [] /\ after h = startAttester.
Proof.
  apply (malformed_request_rejected attester_env startAttester
           (issuer "2" "i1" [x2a]) get_request).
  left. discriminate.
Defined.

Lemma short_body_panics_witness :
  let h := handleAttestationRequest attester_env startAttester
             (issuer "2" "i1" [x2a]) (token_request "o1" [x00]) in
  response h = None /\ forwarded h = [] /\ after h = startAttester.
Proof.
  eapply (short_body_panics attester_env startAttester (issuer "2" "i1" [x2a])
            (token_request "o1" [x00])).
  - vm_compute. reflexivity.
  - simpl. lia.
Defined.

Lemma missing_header_rejected_witness :
  let h := handleAttestationRequest attester_env startAttester
             (issuer "2" "i1" [x2a]) keyless_request in
  (exists w, response h = Some w /\ status_of w = 400)
  /\ forwarded h = [] /\ after h = startAttester.
Proof.
  eapply (missing_header_rejected attester_env startAttester (issuer "2" "i1" [x2a])
            keyless_request _ _ headerClientKey).
  - vm_compute. reflexivity.
  - reflexivity.
  - apply elem_of_cons. right. apply elem_of_cons. by left.
  - vm_compute. reflexivity.
Defined.

Lemma issuer_failure_rejected_witness :
  let h := handleAttestationRequest attester_env startAttester unreachable
             (token_request "o1" rate_limited_body) in
  (exists w, response h = Some w /\ status_of w = 400)
  /\ length (forwarded h) = 1%nat /\ after h = startAttester.
Proof.
  intros h.
  edestruct (issuer_failure_rejected attester_env startAttester unreachable
               (token_request "o1" rate_limited_body)) as (Hw & Hf & Ha).
  - vm_compute. reflexivity.
  - reflexivity.
  - vm_compute. reflexivity.
  - left. eexists. reflexivity.
  - subst h. rewrite Hf. done.
Defined.

Lemma other_clients_untouched_witness :
  let h := handleAttestationRequest attester_env bound_attester
             (issuer "2" "i9" [x2a]) (client_request "bob" "o1") in
  clientState (after h) !! "default" = clientState bound_attester !! "default".
Proof.
  apply (other_clients_untouched attester_env bound_attester
           (issuer "2" "i9" [x2a]) (client_request "bob" "o1") "default").
  vm_compute. discriminate.
Defined.

Lemma recorded_index_stays_witness :
  recorded_index bound_attester "default" "6f31" = Some "6931"
  /\ recorded_index
       (after (handleAttestationRequest attester_env bound_attester
                 (issuer "2" "i2" [x2b]) (token_request "o1" rate_limited_body)))
       "default" "6f31" = Some "6931".
Proof.
  assert (recorded_index bound_attester "default" "6f31" = Some "6931") as H
    by (vm_compute; reflexivity).
  split; [exact H|].
  by apply (recorded_index_stays attester_env bound_attester).
Defined.

Lemma accounted_before_limited_witness :
  let h := handleAttestationRequest attester_env bound_attester
             (issuer "1" "i1" [x2b]) (token_request "o1" rate_limited_body) in
  length (forwarded h) = 1%nat
  /\ tracked (after h) "default" "6f31" "6931" 1
  /\ (status_of <$> response h) = Some 429.
Proof.
  intros h.
  pose proof (fun tokenReq c anon idx L sig =>
                accounted_before_limited attester_env bound_attester
                  (issuer "1" "i1" [x2b]) (token_request "o1" rate_limited_body)
                  tokenReq c anon idx L sig 0) as H.
  edestruct H as (Hf & Ht & Hr).
  - vm_compute. reflexivity.
  - eexists. repeat split; vm_compute; reflexivity.
  - unfold int_min, int_max. lia.
  - subst h. rewrite Hf, Hr. split; [done|]. split; [exact Ht | reflexivity].
Defined.

Lemma other_pairs_do_not_count_witness :
  tracked bound_attester "default" "6f31" "6931" 0
  /\ tracked
       (after (handleAttestationRequest attester_env bound_attester
                 (issuer "2" "i2" [x2b]) (token_request "o2" rate_limited_body)))
       "default" "6f31" "6931" 0.
Proof.
  assert (tracked bound_attester "default" "6f31" "6931" 0) as H
    by (eexists; repeat split; vm_compute; reflexivity).
  split; [exact H|].
  eapply (other_pairs_do_not_count attester_env bound_attester); [exact H| |].
  - vm_compute. reflexivity.
  - right. repeat split; discriminate.
Defined.


Lemma basic_issuer_failure_rejected_witness :
  let h := handleAttestationRequest attester_env startAttester unreachable
             (token_request "o1" basic_body) in
  (exists w, response h = Some w /\ status_of w = 400)
  /\ length (forwarded h) = 1%nat /\ after h = startAttester.
Proof.
  intros h.
  edestruct (basic_issuer_failure_rejected attester_env startAttester unreachable
               (token_request "o1" basic_body)) as (Hw & Hf & Ha).
  - vm_compute. reflexivity.
  - reflexivity.
  - left. eexists. reflexivity.
  - subst h. rewrite Hf. done.
Defined.

Lemma first_request_allowed_at_any_limit_witness :
  let h := handleAttestationRequest attester_env startAttester
             (issuer "-3" "i1" [x2a]) (token_request "o1" rate_limited_body) in
  (status_of <$> response h) = Some 200
  /\ recorded_index (after h) "default" "6f31" = Some "6931".
Proof.
  intros h.
  edestruct (first_request_allowed_at_any_limit attester_env startAttester
               (issuer "-3" "i1" [x2a]) (token_request "o1" rate_limited_body))
    as (Hr & Hi & _).
  - vm_compute. reflexivity.
  - reflexivity.
  - subst h. rewrite Hr. split; [reflexivity | exact Hi].
Defined.

End OnAttester.

Section OnOrigin.
Import Origin OriginMore.


Lemma credentials_parse_or_400_witness :
  let h := handleRequest origin_env challenged_origin [] upstream bearer_request in
  (exists w, response h = Some w /\ status_of w = 400)
  /\ after h = challenged_origin /\ granted h = false.
Proof.
  destruct (credentials_parse_or_400 origin_env challenged_origin [] upstream
              bearer_request) as [[token Hp]|H]; [vm_compute; discriminate| |exact H].
  exfalso. revert Hp. vm_compute. discriminate.
Defined.

Lemma issued_then_redeemed_in_turn_witness :
  let h := handleRequest origin_env challenged_origin [] upstream (redeem_request "v") in
  challenges (after h) = ∅ /\ granted h = true.
Proof.
  intros h.
  pose proof (issued_then_redeemed_in_turn origin_env origin (challenge_request "1") []
                [] upstream (redeem_request "v")) as H.
  edestruct H as [Hm Hg]; [vm_compute; reflexivity | vm_compute; reflexivity |].
  split; [exact Hm|]. apply Hg. eexists. split; vm_compute; reflexivity.
Defined.

Lemma verified_token_fetches_resource_witness :
  let h := handleRequest origin_env challenged_origin [] upstream (redeem_request "v") in
  granted h = true
  /\ exists w, response h = Some w /\ status_of w = 200
               /\ w_body w = bytes_of_string "resource".
Proof.
  intros h.
  edestruct (verified_token_fetches_resource origin_env challenged_origin [] upstream
               (redeem_request "v")) as (Hg & _ & Hr).
  - vm_compute. reflexivity.
  - vm_compute. reflexivity.
  - eexists. split; vm_compute; reflexivity.
  - reflexivity.
  - split; [exact Hg | exact Hr].
Defined.

Lemma missing_key_panics_after_pop_witness :
  let h := handleRequest origin_env keyless_origin [] upstream (redeem_request "v") in
  response h = None /\ granted h = false /\ challenges (after h) = ∅.
Proof.
  intros h.
  edestruct (missing_key_panics_after_pop origin_env keyless_origin [] upstream
               (redeem_request "v")) as (Hr & Hg & Hm).
  - vm_compute. reflexivity.
  - vm_compute. reflexivity.
  - reflexivity.
  - subst h. rewrite Hr, Hg, Hm. split; [done|]. split; [done|].
    vm_compute. reflexivity.
Defined.

Lemma redemption_takes_at_most_one_witness :
  let h := handleRequest origin_env challenged_origin [] upstream (redeem_request "x") in
  outstanding (challenges challenged_origin) = 1%nat
  /\ outstanding (challenges (after h)) = 0%nat.
Proof.
  intros h.
  assert (outstanding (challenges challenged_origin) = 1%nat) as H1
    by (vm_compute; reflexivity).
  split; [exact H1|].
  destruct (redemption_takes_at_most_one origin_env challenged_origin [] upstream
              (redeem_request "x")) as [Ha|[_ Hn]]; [vm_compute; discriminate| |].
  - exfalso. revert Ha. vm_compute. discriminate.
  - fold h in Hn. lia.
Defined.

End OnOrigin.

Section OnStartup.
Import Startup StartupMore.

Lemma origin_starts_with_last_keys_witness :
  exists addr o,
    startOrigin (startup_env [entry 3 "k1"; entry 2 "b"; entry 3 "key2"; entry 7 "x"])
      flags = Serving addr "cert.pem" "key.pem" "/" o
    /\ addr = ":4568"
    /\ Origin.challenges o = ∅
    /\ Origin.rateLimitedTokenKeyEnc o = bytes_of_string "key2".
Proof.
  eexists _, _. split; [vm_compute; reflexivity|].
  edestruct (origin_starts_with_last_keys
               (startup_env [entry 3 "k1"; entry 2 "b"; entry 3 "key2"; entry 7 "x"])
               flags) as (_ & (Ha & _) & Hc & _ & config & Hf & Hr & _);
    [vm_compute; reflexivity|].
  split; [exact Ha|]. split; [exact Hc|]. reflexivity.
Defined.

Lemma origin_exits_on_bad_key_witness :
  exists msg,
    startOrigin (startup_env [entry 3 "bad"; entry 3 "key2"]) flags = Fatal msg.
Proof.
  apply (origin_exits_on_bad_key (startup_env [entry 3 "bad"; entry 3 "key2"]) flags
           (config [entry 3 "bad"; entry 3 "key2"]) (entry 3 "bad"));
    try discriminate; try reflexivity.
  - apply elem_of_cons. by left.
  - by right.
  - intros enc k [Hd _]. revert Hd. vm_compute. discriminate.
Defined.

End OnStartup.

End ExtraRuns.
